(** * pos-desktop: the schema migration script [migrate_settings.py]

    The script opens the local SQLite file, reads the column names of
    [pop_config] with [PRAGMA table_info], adds the columns
    [address_vente] and [site_livraison] when their names are missing,
    commits, closes and prints what it did.  Every exception raised
    inside the [try] block is caught and printed.

    The development has three layers:
    - [Sqlite]: the part of the database the script talks to (a catalog
      of tables, [PRAGMA table_info], [ALTER TABLE .. ADD COLUMN]);
    - [Py]: the script's effects as a state-and-exception monad over a
      process state (catalog, open connections, standard output, and a
      log of the database calls that were issued);
    - [Migrate]: the script itself, then the same script with its table
      name and column list taken as parameters. *)

From Stdlib Require Import ZArith Ascii.
From stdpp Require Import base strings list gmap sets.

(** ** The SQLite layer *)

Module Sqlite.

(** A stored cell. *)
Inductive value :=
  | VNull
  | VInt (z : Z)
  | VText (s : string).

(** One column of a table: what [PRAGMA table_info] reports about it
    and the cells stored under it, one per row. *)
Record column := Column {
  col_name : string;
  col_type : string;
  col_notnull : bool;
  col_dflt : option string;
  col_pk : nat;
  col_cells : list value
}.

(** A table is its columns in declaration order. *)
Abbreviation table := (list column).

(** A row of [PRAGMA table_info(t)]:
    [(cid, name, type, notnull, dflt_value, pk)]. *)
Definition table_info_row : Type :=
  nat * string * string * bool * option string * nat.

(** Python's [col[1]] on such a row. *)
Definition row_1 (r : table_info_row) : string :=
  let '(_, name, _, _, _, _) := r in name.

Definition info_row (cid : nat) (c : column) : table_info_row :=
  (cid, col_name c, col_type c, col_notnull c, col_dflt c, col_pk c).

Definition table_info (t : table) : list table_info_row := imap info_row t.

Definition names (t : table) : list string := col_name <$> t.

(** SQLite compares identifiers without regard to ASCII case. *)
Definition lower_ascii (a : ascii) : ascii :=
  let n := nat_of_ascii a in
  if (65 <=? n)%nat && (n <=? 90)%nat then ascii_of_nat (n + 32) else a.

Fixpoint fold_name (s : string) : string :=
  match s with
  | EmptyString => EmptyString
  | String a r => String (lower_ascii a) (fold_name r)
  end.

(** Does the table already have a column that SQLite takes to be [c]? *)
Definition has_column (t : table) (c : string) : bool :=
  bool_decide (fold_name c ∈ fold_name <$> names t).

Definition nrows (t : table) : nat :=
  match t with
  | [] => 0
  | c :: _ => length (col_cells c)
  end.

(** The column [ADD COLUMN c ty] creates: nullable, no default, not part
    of the key, NULL in every existing row. *)
Definition new_column (n : nat) (c ty : string) : column :=
  Column c ty false None 0 (replicate n VNull).

Definition add_column (t : table) (cty : string * string) : table :=
  t ++ [new_column (nrows t) cty.1 cty.2].

(** The calls the script makes on the database. *)
Inductive db_op :=
  | Connect (path : string)
  | TableInfo (tbl : string)
  | AddColumn (tbl col ty : string)
  | Commit
  | Close.

(** [ALTER TABLE tbl ADD COLUMN c ty] on a catalog: the new catalog, or
    the message of the error SQLite raises when the statement is
    prepared. *)
Definition alter_add_column (db : gmap string table) (tbl c ty : string)
  : string + gmap string table :=
  match db !! tbl with
  | None => inl ("no such table: " +:+ tbl)
  | Some t =>
      if has_column t c then inl ("duplicate column name: " +:+ c)
      else inr (<[tbl := add_column t (c, ty)]> db)
  end.

End Sqlite.

Import Sqlite.

(** ** The machine the script runs on *)

(** What the script finds when it starts: the paths that exist, the
    catalog stored in the database file, and for each database call the
    error, if any, with which the database refuses it for a reason of its
    own (disk full, database locked, not a database file, ...). *)
Record host := Host {
  fs : gset string;
  disk : gmap string table;
  refuses : db_op → option string
}.

(** The state of the running script.  [db] is the catalog as stored:
    Python's sqlite3 module opens no transaction before a DDL statement,
    so an [ALTER TABLE] is durable as soon as it returns.  [db_log]
    records every database call issued, with the error it raised. *)
Record proc := Proc {
  db : gmap string table;
  handles : nat;
  stdout : list string;
  db_log : list (db_op * option string)
}.

Module Py.

(** How a piece of Python code ends: with a value, or with an exception,
    kept as the text [f"{e}"] gives. *)
Inductive res (A : Type) :=
  | Ok (a : A)
  | Raise (e : string).
Arguments Ok {A} a.
Arguments Raise {A} e.

Definition py (A : Type) : Type := proc → res A * proc.

#[export] Instance py_ret : MRet py := λ A a p, (Ok a, p).

#[export] Instance py_bind : MBind py := λ A B f m p,
  match m p with
  | (Ok a, p') => f a p'
  | (Raise e, p') => (Raise e, p')
  end.

(** [try: body / except Exception as e: handler e] *)
Definition try_except (body : py unit) (handler : string → py unit) : py unit :=
  λ p, match body p with
       | (Ok tt, p') => (Ok tt, p')
       | (Raise e, p') => handler e p'
       end.

Definition print (s : string) : py unit :=
  λ p, (Ok tt, Proc (db p) (handles p) (stdout p ++ [s]) (db_log p)).

Definition logged (p : proc) (op : db_op) (r : option string) : proc :=
  Proc (db p) (handles p) (stdout p) (db_log p ++ [(op, r)]).

Section Calls.
Variable h : host.

(** [os.path.exists(path)] *)
Definition os_path_exists (path : string) : py bool :=
  λ p, (Ok (bool_decide (path ∈ fs h)), p).

(** [conn = sqlite3.connect(path)] *)
Definition sqlite3_connect (path : string) : py unit :=
  λ p, match refuses h (Connect path) with
       | Some e => (Raise e, logged p (Connect path) (Some e))
       | None =>
           (Ok tt, Proc (db p) (S (handles p)) (stdout p)
                        (db_log p ++ [(Connect path, None)]))
       end.

(** [cursor.execute("PRAGMA table_info(tbl)")] then
    [cursor.fetchall()]: no row, and no error, for a table that does
    not exist. *)
Definition pragma_table_info (tbl : string) : py (list table_info_row) :=
  λ p, match refuses h (TableInfo tbl) with
       | Some e => (Raise e, logged p (TableInfo tbl) (Some e))
       | None =>
           (Ok (table_info (default [] (db p !! tbl))),
            logged p (TableInfo tbl) None)
       end.

(** [cursor.execute("ALTER TABLE tbl ADD COLUMN c ty")] *)
Definition execute_add_column (tbl c ty : string) : py unit :=
  λ p, match alter_add_column (db p) tbl c ty with
       | inl e => (Raise e, logged p (AddColumn tbl c ty) (Some e))
       | inr db' =>
           match refuses h (AddColumn tbl c ty) with
           | Some e => (Raise e, logged p (AddColumn tbl c ty) (Some e))
           | None =>
               (Ok tt, Proc db' (handles p) (stdout p)
                            (db_log p ++ [(AddColumn tbl c ty, None)]))
           end
       end.

(** [conn.commit()]: nothing is pending, see [proc]. *)
Definition conn_commit : py unit :=
  λ p, match refuses h Commit with
       | Some e => (Raise e, logged p Commit (Some e))
       | None => (Ok tt, logged p Commit None)
       end.

(** [conn.close()] *)
Definition conn_close : py unit :=
  λ p, match refuses h Close with
       | Some e => (Raise e, logged p Close (Some e))
       | None =>
           (Ok tt, Proc (db p) (pred (handles p)) (stdout p)
                        (db_log p ++ [(Close, None)]))
       end.
End Calls.

End Py.

Import Py.

(** ** The script *)

Module Migrate.

Definition db_path : string := "C:\poswaza\temp\db\pos_local.db".

(** The script's process starts with the catalog of the file, no
    connection, and nothing printed. *)
Definition boot (h : host) : proc := Proc (disk h) 0 [] [].

(** [migrate_settings.py], statement by statement. *)
Definition migrate_settings (h : host) : py unit :=
  found ← os_path_exists h db_path;
  if negb found then
    print ("Database not found at " +:+ db_path)
  else
    try_except
      (sqlite3_connect h db_path;;
       rows ← pragma_table_info h "pop_config";
       let columns := row_1 <$> rows in
       (if bool_decide ("address_vente" ∉ columns) then
          print "Adding column address_vente...";;
          execute_add_column h "pop_config" "address_vente" "TEXT"
        else
          print "Column address_vente already exists.");;
       (if bool_decide ("site_livraison" ∉ columns) then
          print "Adding column site_livraison...";;
          execute_add_column h "pop_config" "site_livraison" "TEXT"
        else
          print "Column site_livraison already exists.");;
       conn_commit h;;
       conn_close h;;
       print "Migration completed successfully.")
      (λ e, print ("Migration failed: " +:+ e)).

(** One run of the script on a host. *)
Definition run (h : host) : res unit * proc := migrate_settings h (boot h).

(** The host the next run finds: same files, same database behaviour,
    the catalog as the run left it. *)
Definition after (h : host) (p : proc) : host := Host (fs h) (db p) (refuses h).

(** *** The script with its table and columns as parameters *)

(** One [if .. not in columns: .. else: ..] block. *)
Definition add_if_missing (h : host) (tbl : string) (columns : list string)
    (cty : string * string) : py unit :=
  if bool_decide (cty.1 ∉ columns) then
    print ("Adding column " +:+ cty.1 +:+ "...");;
    execute_add_column h tbl cty.1 cty.2
  else
    print ("Column " +:+ cty.1 +:+ " already exists.").

(** The blocks for a list of columns, in the order they are written. *)
Fixpoint add_all (h : host) (tbl : string) (columns : list string)
    (targets : list (string * string)) : py unit :=
  match targets with
  | [] => mret tt
  | cty :: rest => add_if_missing h tbl columns cty;; add_all h tbl columns rest
  end.

Definition evolve_body (h : host) (tbl : string)
    (targets : list (string * string)) : py unit :=
  sqlite3_connect h db_path;;
  rows ← pragma_table_info h tbl;
  let columns := row_1 <$> rows in
  add_all h tbl columns targets;;
  conn_commit h;;
  conn_close h;;
  print "Migration completed successfully.".

Definition evolve (h : host) (tbl : string)
    (targets : list (string * string)) : py unit :=
  found ← os_path_exists h db_path;
  if negb found then
    print ("Database not found at " +:+ db_path)
  else
    try_except (evolve_body h tbl targets)
               (λ e, print ("Migration failed: " +:+ e)).

Definition evolve_run (h : host) (tbl : string)
    (targets : list (string * string)) : res unit * proc :=
  evolve h tbl targets (boot h).

(** The two columns the script is written for. *)
Definition pop_config_columns : list (string * string) :=
  [("address_vente", "TEXT"); ("site_livraison", "TEXT")].

(** *** What a run reports *)

(** The columns a run added: the [ADD COLUMN] calls that went through,
    in the order they were made. *)
Definition added (p : proc) : list string :=
  omap (λ ev, match ev with
              | (AddColumn _ c _, None) => Some c
              | _ => None
              end) (db_log p).

(** The columns a run tried to add, whether or not the database agreed. *)
Definition attempted (p : proc) : list string :=
  omap (λ ev, match ev with
              | (AddColumn _ c _, _) => Some c
              | _ => None
              end) (db_log p).

(** Among [cs], the columns a run printed as already there. *)
Definition skipped (cs : list string) (p : proc) : list string :=
  filter (λ c, "Column " +:+ c +:+ " already exists." ∈ stdout p) cs.

(** The database calls that raised, with their messages. *)
Definition db_errors (p : proc) : list (db_op * string) :=
  omap (λ ev, match ev with
              | (op, Some e) => Some (op, e)
              | _ => None
              end) (db_log p).

(** The column stored under a name. *)
Definition get_column (cat : gmap string table) (tbl c : string) : option column :=
  t ← cat !! tbl; snd <$> list_find (λ col, col_name col = c) t.

(** *** Vocabulary for the statements *)

(** The targets whose name is not in the column list read at the start. *)
Definition missing (columns : list string) (targets : list (string * string))
  : list (string * string) :=
  filter (λ cty, cty.1 ∉ columns) targets.

(** The line a block prints. *)
Definition progress_line (columns : list string) (cty : string * string) : string :=
  if bool_decide (cty.1 ∉ columns) then "Adding column " +:+ cty.1 +:+ "..."
  else "Column " +:+ cty.1 +:+ " already exists.".

(** The log entry of an [ADD COLUMN] that went through. *)
Definition add_event (tbl : string) (cty : string * string) : db_op * option string :=
  (AddColumn tbl cty.1 cty.2, None).

(** A database that refuses nothing for reasons of its own. *)
Definition willing (h : host) : Prop := ∀ op, refuses h op = None.

(** Every name of [cs] that SQLite finds in the table is spelled there
    as in [cs]. *)
Definition exact_names (t : table) (cs : list string) : Prop :=
  ∀ c, c ∈ cs → has_column t c = true → c ∈ names t.

(** No two names of [cs] are the same to SQLite. *)
Definition distinct_names (cs : list string) : Prop := NoDup (fold_name <$> cs).

(** The catalog only grew: every table is still there, with its old
    columns, unchanged, in front. *)
Definition grows (d d' : gmap string table) : Prop :=
  ∀ T t, d !! T = Some t → ∃ ext, d' !! T = Some (t ++ ext).


(** A specification of a piece of the script, with one postcondition for
    a normal end and one for an exception.  Every piece of the script
    ends, so this is total correctness. *)
Definition triple {A} (P : proc → Prop) (m : py A)
    (Q : A → proc → Prop) (E : string → proc → Prop) : Prop :=
  ∀ p, P p → match m p with
             | (Ok a, p') => Q a p'
             | (Raise e, p') => E e p'
             end.

End Migrate.

Import Migrate.

(** ** Hosts to run the script on *)

Definition healthy : db_op → option string := λ _, None.

Definition col_id : column := Column "id" "INTEGER" false None 1 [VInt 1; VInt 2].
Definition col_nm : column := Column "name" "TEXT" false None 0 [VText "caisse"; VNull].

(** The table before the migration. *)
Definition shop : host :=
  Host {[ db_path ]} {[ "pop_config" := [col_id; col_nm] ]} healthy.

(** No database file at all. *)
Definition no_file : host := Host ∅ {[ "pop_config" := [col_id; col_nm] ]} healthy.

(** The same table with [address_vente] already there, declared as an
    integer column. *)
Definition col_av_int : column :=
  Column "address_vente" "INTEGER" false None 0 [VInt 7; VNull].

Definition half_done : host :=
  Host {[ db_path ]} {[ "pop_config" := [col_id; col_av_int] ]} healthy.


(** A disk that fills up when one given column is added. *)
Definition full_at (c : string) : db_op → option string :=
  λ op, match op with
        | AddColumn _ c' _ =>
            if bool_decide (c' = c) then Some "database or disk is full" else None
        | _ => None
        end.

Definition full_first : host :=
  Host {[ db_path ]} {[ "pop_config" := [col_id; col_nm] ]} (full_at "address_vente").

Definition full_second : host :=
  Host {[ db_path ]} {[ "pop_config" := [col_id; col_nm] ]} (full_at "site_livraison").

(** The assertions that hold along a run.  [connected]: the script's own
    [connect] is the first database call and its connection is open, and
    no call has failed.  [stopped e]: the last database call failed with
    [e], and it is the only one that did.  [finished]: the last call was
    the script's own [close], and no call failed. *)
Definition opened_by_script (h : host) (p : proc) : Prop :=
  head (db_log p) = Some (Connect db_path, refuses h (Connect db_path)).

Definition connected (h : host) (p : proc) : Prop :=
  db_errors p = [] ∧ handles p = 1 ∧ opened_by_script h p.

Definition stopped (h : host) (e : string) (p : proc) : Prop :=
  (∃ op, db_errors p = [(op, e)] ∧ last (db_log p) = Some (op, Some e)) ∧
  opened_by_script h p.

Definition finished (h : host) (p : proc) : Prop :=
  db_errors p = [] ∧ handles p = 0 ∧ opened_by_script h p ∧
  last (db_log p) = Some (Close, None).

(** Column [c] of [tbl] is there and the run has not tried to add it. *)
Definition left_alone (tbl c : string) (p : proc) : Prop :=
  (c ∉ attempted p) ∧ ∃ t, db p !! tbl = Some t ∧ c ∈ names t.

(** The run has printed that [c] is already there. *)
Definition reported_present (c : string) (p : proc) : Prop :=
  "Column " +:+ c +:+ " already exists." ∈ stdout p.

(** Two catalogs with the same tables and column names; declared types
    and stored cells may differ. *)
Definition same_names (d1 d2 : gmap string table) : Prop :=
  ∀ T, names <$> d1 !! T = names <$> d2 !! T.

(** Two process states that differ at most in the declared types and
    the cells of their columns. *)
Definition alike (p1 p2 : proc) : Prop :=
  same_names (db p1) (db p2) ∧ handles p1 = handles p2 ∧
  stdout p1 = stdout p2 ∧ db_log p1 = db_log p2.

(** Two pieces of script that take alike states to alike states and end
    the same way, with results related by [R]. *)
Definition same_course {A} (R : A → A → Prop) (m1 m2 : py A) : Prop :=
  ∀ p1 p2, alike p1 p2 →
    alike (m1 p1).2 (m2 p2).2 ∧
    match (m1 p1).1, (m2 p2).1 with
    | Ok a1, Ok a2 => R a1 a2
    | Raise e1, Raise e2 => e1 = e2
    | _, _ => False
    end.

(** An invariant a piece of the script keeps however it ends. *)
Definition keeps {A} (I : proc → Prop) (m : py A) : Prop :=
  triple I m (λ _, I) (λ _, I).

(** *** Vocabulary for further properties of the script *)

(** The database calls a run for [targets] on [tbl] may make on host
    [h]: its own [connect], the introspection of [tbl], [commit],
    [close], and [ADD COLUMN] on [tbl] for a target whose name [tbl] did
    not have when the run started. *)
Definition expected_call (h : host) (tbl : string)
    (targets : list (string * string)) (op : db_op) : Prop :=
  match op with
  | Connect path => path = db_path
  | TableInfo T => T = tbl
  | AddColumn T c ty =>
      T = tbl ∧ (c, ty) ∈ targets ∧ c ∉ names (default [] (disk h !! tbl))
  | Commit | Close => True
  end.

Definition expected_log (h : host) (tbl : string)
    (targets : list (string * string)) (p : proc) : Prop :=
  Forall (λ ev, expected_call h tbl targets ev.1) (db_log p).


(** The number of connections a stopped run leaves open: the one it
    opened, unless [connect] itself was refused. *)
Definition left_open (h : host) : nat :=
  match refuses h (Connect db_path) with
  | Some _ => 0
  | None => 1
  end.

(** [pop_config] with a column that SQLite takes for [address_vente]
    but that is spelled with capitals. *)
Definition col_av_caps : column :=
  Column "Address_Vente" "TEXT" false None 0 [VText "12 rue du Port"; VNull].

Definition clash : host :=
  Host {[ db_path ]} {[ "pop_config" := [col_id; col_av_caps] ]} healthy.

(** A database that another process holds locked: the first statement
    is refused. *)
Definition locked : host :=
  Host {[ db_path ]} {[ "pop_config" := [col_id; col_nm] ]}
       (λ op, match op with
              | TableInfo _ => Some "database is locked"
              | _ => None
              end).

(** A database that takes every statement and fails at [commit]. *)
Definition commit_fails : host :=
  Host {[ db_path ]} {[ "pop_config" := [col_id; col_nm] ]}
       (λ op, match op with
              | Commit => Some "disk I/O error"
              | _ => None
              end).

(** A migrated table on a disk that is full: every [ADD COLUMN] would be
    refused. *)
Definition migrated_full : host :=
  Host {[ db_path ]}
       {[ "pop_config" :=
            [col_id; col_nm;
             Column "address_vente" "TEXT" false None 0 [VNull; VNull];
             Column "site_livraison" "TEXT" false None 0 [VNull; VNull]] ]}
       (λ op, match op with
              | AddColumn _ _ _ => Some "database or disk is full"
              | _ => None
              end).

(** The host a retry finds after the disk was freed: the catalog as the
    stopped run left it, and a database that refuses nothing. *)
Definition freed (h : host) (p : proc) : host := Host (fs h) (db p) healthy.

(** ** Running the monad *)

Lemma bind_ok {A B} (m : py A) (f : A → py B) p a p' :
  m p = (Ok a, p') → (m ≫= f) p = f a p'.
Proof. intros E. unfold mbind, py_bind. by rewrite E. Qed.

Lemma bind_raise {A B} (m : py A) (f : A → py B) p e p' :
  m p = (Raise e, p') → (m ≫= f) p = (Raise e, p').
Proof. intros E. unfold mbind, py_bind. by rewrite E. Qed.

Lemma bind_assoc {A B C} (m : py A) (f : A → py B) (g : B → py C) p :
  ((m ≫= f) ≫= g) p = (m ≫= λ a, f a ≫= g) p.
Proof. unfold mbind, py_bind. by destruct (m p) as [[a|e] p']. Qed.

Lemma bind_ext {A B} (m : py A) (f g : A → py B) p :
  (∀ a q, f a q = g a q) → (m ≫= f) p = (m ≫= g) p.
Proof. intros E. unfold mbind, py_bind. by destruct (m p) as [[a|e] p']. Qed.

Lemma try_except_ext (b1 b2 : py unit) k p :
  b1 p = b2 p → try_except b1 k p = try_except b2 k p.
Proof. intros E. unfold try_except. by rewrite E. Qed.

(** The script is [evolve] at its own table and columns. *)
Lemma migrate_settings_evolve h p :
  migrate_settings h p = evolve h "pop_config" pop_config_columns p.
Proof.
  unfold migrate_settings, evolve.
  apply bind_ext; intros found q. destruct (negb found); [done|].
  apply try_except_ext. unfold evolve_body.
  apply bind_ext; intros _ q1. apply bind_ext; intros rows q2.
  cbn [add_all pop_config_columns]. rewrite !bind_assoc.
  apply bind_ext; intros _ q3. rewrite bind_assoc.
  apply bind_ext; intros _ q4. unfold mret, py_ret, mbind, py_bind. done.
Qed.

Lemma run_evolve h : run h = evolve_run h "pop_config" pop_config_columns.
Proof. apply migrate_settings_evolve. Qed.

(** ** The database layer *)

Lemma row_1_table_info t : row_1 <$> table_info t = names t.
Proof.
  unfold table_info, names. rewrite fmap_imap.
  rewrite (imap_ext _ (const col_name)); [apply imap_const | done].
Qed.

Lemma names_add_column t cty : names (add_column t cty) = names t ++ [cty.1].
Proof. unfold names, add_column. by rewrite fmap_app. Qed.

Lemma names_foldl_add_column l t :
  names (foldl add_column t l) = names t ++ l.*1.
Proof.
  revert t; induction l as [|cty l IH]; intros t; simpl.
  - by rewrite app_nil_r.
  - by rewrite IH, names_add_column, <-app_assoc.
Qed.

Lemma has_column_false t c : has_column t c = false ↔ fold_name c ∉ fold_name <$> names t.
Proof. unfold has_column. by rewrite bool_decide_eq_false. Qed.

Lemma has_column_add_column t cty c :
  has_column t c = false → fold_name c ≠ fold_name cty.1 →
  has_column (add_column t cty) c = false.
Proof.
  rewrite !has_column_false, names_add_column, fmap_app. intros H1 H2.
  rewrite elem_of_app. intros [?|H%list_elem_of_singleton]; done.
Qed.

Lemma alter_add_column_ok d tbl t c ty :
  d !! tbl = Some t → has_column t c = false →
  alter_add_column d tbl c ty = inr (<[tbl := add_column t (c, ty)]> d).
Proof. intros E1 E2. unfold alter_add_column. by rewrite E1, E2. Qed.

(** ** The blocks, when the database goes along *)

Lemma missing_cons_absent columns cty rest :
  cty.1 ∉ columns → missing columns (cty :: rest) = cty :: missing columns rest.
Proof. intros H. unfold missing. by rewrite filter_cons_True. Qed.

Lemma missing_cons_present columns cty rest :
  cty.1 ∈ columns → missing columns (cty :: rest) = missing columns rest.
Proof. intros H. unfold missing. rewrite filter_cons_False; [done|]. by intros []. Qed.

Lemma progress_line_absent columns cty :
  cty.1 ∉ columns → progress_line columns cty = "Adding column " +:+ cty.1 +:+ "...".
Proof. intros H. unfold progress_line. by rewrite bool_decide_eq_true_2. Qed.

Lemma progress_line_present columns cty :
  cty.1 ∈ columns →
  progress_line columns cty = "Column " +:+ cty.1 +:+ " already exists.".
Proof.
  intros H. unfold progress_line. rewrite bool_decide_eq_false_2; [done|]. by intros [].
Qed.

Lemma add_all_ok h tbl columns targets : ∀ p t,
  db p !! tbl = Some t →
  (∀ cty, cty ∈ missing columns targets →
     has_column t cty.1 = false ∧ refuses h (AddColumn tbl cty.1 cty.2) = None) →
  NoDup (fold_name <$> (missing columns targets).*1) →
  add_all h tbl columns targets p =
    (Ok tt,
     Proc (<[tbl := foldl add_column t (missing columns targets)]> (db p))
          (handles p)
          (stdout p ++ (progress_line columns <$> targets))
          (db_log p ++ (add_event tbl <$> missing columns targets))).
Proof.
  induction targets as [|[c ty] rest IH]; intros p t Ht Hm Hnd.
  - cbn. rewrite insert_id, !app_nil_r by done. by destruct p.
  - cbn [add_all]. unfold add_if_missing. rewrite fmap_cons.
    destruct (decide (c ∈ columns)) as [Hin|Hout].
    + rewrite progress_line_present by done. cbn [fst snd].
      rewrite bool_decide_eq_false_2 by (by intros []).
      rewrite missing_cons_present in * by done.
      erewrite bind_ok; [|reflexivity].
      rewrite (IH _ t); [|done..]. cbn [db handles stdout db_log].
      by rewrite <-app_assoc.
    + rewrite progress_line_absent by done. cbn [fst snd].
      rewrite bool_decide_eq_true_2 by done.
      rewrite missing_cons_absent in * by done.
      destruct (Hm (c, ty)) as [Hc Hr]; [left|]. cbn [fst snd] in Hc, Hr.
      rewrite !fmap_cons in Hnd. cbn [fst] in Hnd.
      apply NoDup_cons in Hnd as [Hfresh Hnd].
      erewrite bind_ok; cycle 1.
      { erewrite bind_ok; [|reflexivity]. unfold execute_add_column.
        cbn [db handles stdout db_log].
        rewrite (alter_add_column_ok _ _ t) by done. rewrite Hr. reflexivity. }
      rewrite (IH _ (add_column t (c, ty))); cbn [db handles stdout db_log].
      * rewrite insert_insert_eq, fmap_cons. cbn [foldl].
        by rewrite <-!app_assoc.
      * apply lookup_insert_eq.
      * intros cty Hcty. destruct (Hm cty) as [H1 H2]; [by right|]. split; [|done].
        apply has_column_add_column; [done|]. cbn [fst].
        intros Heq. apply Hfresh. rewrite <-Heq.
        apply list_elem_of_fmap_2. by apply list_elem_of_fmap_2.
      * done.
Qed.

(** ** A whole run, when the database goes along *)

Lemma evolve_run_ok h tbl targets t :
  db_path ∈ fs h → willing h → disk h !! tbl = Some t →
  (∀ cty, cty ∈ missing (names t) targets → has_column t cty.1 = false) →
  NoDup (fold_name <$> (missing (names t) targets).*1) →
  evolve_run h tbl targets =
    (Ok tt,
     Proc (<[tbl := foldl add_column t (missing (names t) targets)]> (disk h))
          0
          ((progress_line (names t) <$> targets) ++
             ["Migration completed successfully."])
          ((Connect db_path, None) :: (TableInfo tbl, None) ::
             (add_event tbl <$> missing (names t) targets) ++
             [(Commit, None); (Close, None)])).
Proof.
  intros Hfs Hw Ht Hm Hnd. unfold evolve_run, evolve.
  erewrite bind_ok; [|reflexivity]. rewrite bool_decide_eq_true_2 by done.
  cbn [negb]. unfold try_except, evolve_body.
  erewrite bind_ok; cycle 1.
  { unfold sqlite3_connect. rewrite Hw. reflexivity. }
  erewrite bind_ok; cycle 1.
  { unfold pragma_table_info. rewrite Hw. reflexivity. }
  cbn [boot db handles stdout db_log logged]. rewrite Ht. cbn [default].
  rewrite row_1_table_info.
  erewrite bind_ok; cycle 1.
  { apply (add_all_ok _ _ _ _ _ t); [done| |done].
    intros cty Hcty. split; [by apply Hm | apply Hw]. }
  cbn [db handles stdout db_log].
  erewrite bind_ok; cycle 1.
  { unfold conn_commit. rewrite Hw. reflexivity. }
  erewrite bind_ok; cycle 1.
  { unfold conn_close. rewrite Hw. reflexivity. }
  unfold print, logged. cbn [db handles stdout db_log pred app].
  by rewrite <-!app_assoc.
Qed.

Lemma missing_conditions t targets :
  exact_names t targets.*1 → distinct_names targets.*1 →
  (∀ cty, cty ∈ missing (names t) targets → has_column t cty.1 = false) ∧
  NoDup (fold_name <$> (missing (names t) targets).*1).
Proof.
  intros Hex Hnd. split.
  - intros cty [Hout Hin]%list_elem_of_filter.
    destruct (has_column t cty.1) eqn:E; [|done].
    destruct Hout. apply Hex; [|done]. by apply list_elem_of_fmap_2.
  - eapply sublist_NoDup; [exact Hnd|].
    do 2 apply fmap_sublist. apply sublist_filter.
Qed.

(** ** Reading the report off a run *)

Lemma added_add_events tbl l : 
  omap (λ ev : db_op * option string,
          match ev with
          | (AddColumn _ c _, None) => Some c
          | _ => None
          end) (add_event tbl <$> l) = l.*1.
Proof. induction l as [|cty l IH]; [done|]. cbn. by rewrite IH. Qed.

Lemma added_of_good_log d n out tbl l :
  added (Proc d n out ((Connect db_path, None) :: (TableInfo tbl, None) ::
                         (add_event tbl <$> l) ++ [(Commit, None); (Close, None)]))
  = l.*1.
Proof.
  unfold added. cbn [db_log omap list_omap].
  rewrite omap_app, added_add_events. cbn. by rewrite app_nil_r.
Qed.

Lemma append_length s1 s2 :
  String.length (s1 +:+ s2) = String.length s1 + String.length s2.
Proof. induction s1 as [|a s1 IH]; [done|]. simpl. by f_equal. Qed.

Lemma append_cancel_r s1 s2 t : s1 +:+ t = s2 +:+ t → s1 = s2.
Proof.
  revert s2; induction s1 as [|a s1 IH]; intros [|b s2] E; cbn in E.
  - done.
  - apply (f_equal String.length) in E.
    rewrite !append_length in E. simpl in E. lia.
  - apply (f_equal String.length) in E.
    rewrite !append_length in E. simpl in E. lia.
  - injection E as -> E. f_equal. by apply IH.
Qed.

Lemma exists_line_in_progress columns targets c :
  "Column " +:+ c +:+ " already exists."
    ∈ (progress_line columns <$> targets) ++ ["Migration completed successfully."]
  ↔ c ∈ targets.*1 ∧ c ∈ columns.
Proof.
  rewrite elem_of_app, list_elem_of_singleton, list_elem_of_fmap. split.
  - intros [(cty & E & Hin)|E]; [|discriminate E].
    unfold progress_line in E. case_bool_decide as Hc.
    + discriminate E.
    + cbn in E. injection E as E.
      apply (append_cancel_r c cty.1 " already exists.") in E as ->.
      split; [by apply list_elem_of_fmap_2|done].
  - intros [(cty & -> & Hin)%list_elem_of_fmap Hc]. left. exists cty.
    by rewrite progress_line_present.
Qed.

Lemma filter_ext_in {A} (P Q : A → Prop) `{∀ x, Decision (P x)} `{∀ x, Decision (Q x)}
    (l : list A) :
  (∀ x, x ∈ l → P x ↔ Q x) → filter P l = filter Q l.
Proof.
  induction l as [|x l IH]; intros E; [done|].
  rewrite !filter_cons. rewrite IH by (intros y Hy; apply E; by right).
  destruct (decide (P x)) as [HP|HP], (decide (Q x)) as [HQ|HQ]; try done.
  - destruct HQ. apply E; [left|done].
  - destruct HP. apply E; [left|done].
Qed.

Lemma skipped_of_good_run d n log columns targets :
  skipped targets.*1
    (Proc d n ((progress_line columns <$> targets) ++
                 ["Migration completed successfully."]) log)
  = filter (λ c, c ∈ columns) targets.*1.
Proof.
  unfold skipped. cbn [stdout]. apply filter_ext_in. intros c Hc.
  rewrite exists_line_in_progress. split; [by intros [_ ?] | by intros ?].
Qed.

Lemma filter_none {A} (P : A → Prop) `{∀ x, Decision (P x)} (l : list A) :
  (∀ x, x ∈ l → ¬ P x) → filter P l = [].
Proof.
  induction l as [|x l IH]; intros E; [done|].
  rewrite filter_cons_False by (apply E; left). apply IH. intros y Hy. apply E. by right.
Qed.

Lemma filter_all {A} (P : A → Prop) `{∀ x, Decision (P x)} (l : list A) :
  (∀ x, x ∈ l → P x) → filter P l = l.
Proof.
  induction l as [|x l IH]; intros E; [done|].
  rewrite filter_cons_True by (apply E; left). f_equal. apply IH. intros y Hy. apply E. by right.
Qed.

Lemma nrows_add_column t cty : nrows (add_column t cty) = nrows t.
Proof. by destruct t. Qed.

Lemma foldl_add_column t l :
  foldl add_column t l = t ++ ((λ cty, new_column (nrows t) cty.1 cty.2) <$> l).
Proof.
  revert t; induction l as [|cty l IH]; intros t; cbn [foldl].
  - by rewrite app_nil_r.
  - rewrite IH, nrows_add_column. unfold add_column at 1.
    by rewrite <-app_assoc.
Qed.

(** A run on a table that already has every target column. *)
Lemma evolve_run_again h tbl targets t :
  db_path ∈ fs h → willing h → disk h !! tbl = Some t →
  (∀ cty, cty ∈ targets → cty.1 ∈ names t) →
  evolve_run h tbl targets =
    (Ok tt,
     Proc (disk h) 0
          ((progress_line (names t) <$> targets) ++
             ["Migration completed successfully."])
          [(Connect db_path, None); (TableInfo tbl, None);
           (Commit, None); (Close, None)]).
Proof.
  intros Hfs Hw Ht Hall.
  assert (missing (names t) targets = []) as Hm.
  { apply filter_none. intros cty Hin Hout. by apply Hout, Hall. }
  rewrite (evolve_run_ok h tbl targets t); rewrite ?Hm; try done.
  - cbn. by rewrite insert_id.
  - intros cty Hcty. by apply elem_of_nil in Hcty.
  - constructor.
Qed.

(** ** A run the database stops *)

Lemma add_all_app h tbl columns l1 l2 p :
  add_all h tbl columns (l1 ++ l2) p =
  (add_all h tbl columns l1 ;; add_all h tbl columns l2) p.
Proof.
  revert p; induction l1 as [|cty l1 IH]; intros p; cbn [add_all app].
  - done.
  - rewrite bind_assoc. apply bind_ext. intros _ q. apply IH.
Qed.

(** The blocks up to a column the table lacks and the database refuses. *)
Lemma add_all_refused h tbl columns pre c ty post e p t :
  db p !! tbl = Some t →
  (∀ cty, cty ∈ missing columns pre →
     has_column t cty.1 = false ∧ refuses h (AddColumn tbl cty.1 cty.2) = None) →
  NoDup (fold_name <$> (missing columns (pre ++ [(c, ty)])).*1) →
  c ∉ columns → has_column t c = false →
  refuses h (AddColumn tbl c ty) = Some e →
  add_all h tbl columns (pre ++ (c, ty) :: post) p =
    (Raise e,
     Proc (<[tbl := foldl add_column t (missing columns pre)]> (db p))
          (handles p)
          (stdout p ++ (progress_line columns <$> pre) ++
             ["Adding column " +:+ c +:+ "..."])
          (db_log p ++ (add_event tbl <$> missing columns pre) ++
             [(AddColumn tbl c ty, Some e)])).
Proof.
  intros Ht Hm Hnd Hc Hhas Hr.
  unfold missing in Hnd. rewrite filter_app, filter_cons_True, !fmap_app in Hnd by done.
  apply NoDup_app in Hnd as (Hnd & Hfresh & _).
  rewrite add_all_app. erewrite bind_ok; [|by apply (add_all_ok _ _ _ _ _ t)].
  cbn [add_all]. apply bind_raise. unfold add_if_missing. cbn [fst snd].
  rewrite bool_decide_eq_true_2 by done.
  erewrite bind_ok; [|reflexivity]. unfold execute_add_column.
  cbn [db handles stdout db_log].
  rewrite (alter_add_column_ok _ _ (foldl add_column t (missing columns pre))).
  - rewrite Hr. unfold logged. cbn [db handles stdout db_log]. by rewrite <-!app_assoc.
  - apply lookup_insert_eq.
  - apply has_column_false. rewrite names_foldl_add_column, fmap_app, elem_of_app.
    intros [Hin|Hin].
    + by apply has_column_false in Hhas.
    + apply (Hfresh _ Hin). cbn. left.
Qed.

Lemma evolve_run_refused h tbl pre c ty post e t :
  db_path ∈ fs h →
  refuses h (Connect db_path) = None → refuses h (TableInfo tbl) = None →
  disk h !! tbl = Some t →
  (∀ cty, cty ∈ missing (names t) pre →
     has_column t cty.1 = false ∧ refuses h (AddColumn tbl cty.1 cty.2) = None) →
  NoDup (fold_name <$> (missing (names t) (pre ++ [(c, ty)])).*1) →
  c ∉ names t → has_column t c = false →
  refuses h (AddColumn tbl c ty) = Some e →
  evolve_run h tbl (pre ++ (c, ty) :: post) =
    (Ok tt,
     Proc (<[tbl := foldl add_column t (missing (names t) pre)]> (disk h))
          1
          ((progress_line (names t) <$> pre) ++
             ["Adding column " +:+ c +:+ "..."; "Migration failed: " +:+ e])
          ((Connect db_path, None) :: (TableInfo tbl, None) ::
             (add_event tbl <$> missing (names t) pre) ++
             [(AddColumn tbl c ty, Some e)])).
Proof.
  intros Hfs Hc Hi Ht Hm Hnd Hout Hhas Hr. unfold evolve_run, evolve.
  erewrite bind_ok; [|reflexivity]. rewrite bool_decide_eq_true_2 by done.
  cbn [negb]. unfold try_except, evolve_body.
  erewrite bind_ok; cycle 1.
  { unfold sqlite3_connect. rewrite Hc. reflexivity. }
  erewrite bind_ok; cycle 1.
  { unfold pragma_table_info. rewrite Hi. reflexivity. }
  cbn [boot db handles stdout db_log logged]. rewrite Ht. cbn [default].
  rewrite row_1_table_info.
  erewrite bind_raise; cycle 1.
  { by apply (add_all_refused _ _ _ _ _ _ _ _ _ t). }
  unfold print. cbn [db handles stdout db_log app].
  by rewrite <-!app_assoc.
Qed.

(** ** Specifications of pieces of the script *)

Section Triples.
Context {A B : Type}.

Lemma triple_bind P (m : py A) (f : A → py B) Q R E :
  triple P m Q E → (∀ a, triple (Q a) (f a) R E) → triple P (m ≫= f) R E.
Proof.
  intros Hm Hf p Hp. specialize (Hm p Hp). unfold mbind, py_bind.
  destruct (m p) as [[a|e] p']; [by apply Hf | done].
Qed.

Lemma triple_conseq (P P' : proc → Prop) (m : py A) (Q Q' : A → proc → Prop)
    (E E' : string → proc → Prop) :
  triple P m Q E →
  (∀ p, P' p → P p) → (∀ a p, Q a p → Q' a p) → (∀ e p, E e p → E' e p) →
  triple P' m Q' E'.
Proof.
  intros Hm HP HQ HE p Hp. specialize (Hm p (HP p Hp)).
  destruct (m p) as [[a|e] p']; auto.
Qed.

End Triples.

Lemma triple_try P (body : py unit) handler Q E E' :
  triple P body Q E → (∀ e, triple (E e) (handler e) Q E') →
  triple P (try_except body handler) Q E'.
Proof.
  intros Hb Hh p Hp. specialize (Hb p Hp). unfold try_except.
  destruct (body p) as [[[]|e] p']; [done | by apply Hh].
Qed.

Lemma keeps_bind {A B} I (m : py A) (f : A → py B) :
  keeps I m → (∀ a, keeps I (f a)) → keeps I (m ≫= f).
Proof. intros Hm Hf. by apply triple_bind with (Q := λ _, I). Qed.

Lemma keeps_try I body handler :
  keeps I body → (∀ e, keeps I (handler e)) → keeps I (try_except body handler).
Proof. intros Hb Hh. by apply triple_try with (E := λ _, I). Qed.

Lemma keeps_ret {A} I (a : A) : keeps I (mret a).
Proof. by intros p Hp. Qed.

(** An invariant kept by each block is kept by all of them, and one kept
    by every call of the script is kept by the script. *)
Lemma keeps_add_all I h tbl columns targets :
  (∀ cty, keeps I (add_if_missing h tbl columns cty)) →
  keeps I (add_all h tbl columns targets).
Proof.
  intros Hb. induction targets as [|cty rest IH]; cbn [add_all].
  - apply keeps_ret.
  - apply keeps_bind; [apply Hb | by intros _].
Qed.

Lemma keeps_add_if_missing I h tbl columns cty :
  (∀ s, keeps I (print s)) →
  (cty.1 ∉ columns → keeps I (execute_add_column h tbl cty.1 cty.2)) →
  keeps I (add_if_missing h tbl columns cty).
Proof.
  intros Hp Hx. unfold add_if_missing. case_bool_decide; [|apply Hp].
  apply keeps_bind; [apply Hp | intros _; by apply Hx].
Qed.

Lemma keeps_evolve I h tbl targets :
  (∀ s, keeps I (print s)) →
  keeps I (sqlite3_connect h db_path) →
  keeps I (pragma_table_info h tbl) →
  (∀ cty, cty ∈ targets → keeps I (execute_add_column h tbl cty.1 cty.2)) →
  keeps I (conn_commit h) →
  keeps I (conn_close h) →
  keeps I (evolve h tbl targets).
Proof.
  intros Hp Hc Hi Hx Hm Hz. unfold evolve.
  apply keeps_bind; [by intros p Hp'|]. intros found.
  destruct (negb found); [apply Hp|].
  apply keeps_try; [|intros e; apply Hp]. unfold evolve_body.
  apply keeps_bind; [done|intros _].
  apply keeps_bind; [done|intros rows].
  apply keeps_bind; [|intros _].
  { clear Hc Hi Hm Hz. induction targets as [|cty rest IH]; cbn [add_all].
    - apply keeps_ret.
    - apply keeps_bind.
      + apply keeps_add_if_missing; [done|]. intros _. apply Hx. left.
      + intros _. apply IH. intros c Hc. apply Hx. by right. }
  apply keeps_bind; [done|intros _].
  apply keeps_bind; [done|intros _]. apply Hp.
Qed.

(** ** The catalog only grows *)

Lemma grows_refl d : grows d d.
Proof. intros T t Ht. exists []. by rewrite app_nil_r. Qed.

Lemma grows_trans d1 d2 d3 : grows d1 d2 → grows d2 d3 → grows d1 d3.
Proof.
  intros H12 H23 T t Ht. destruct (H12 T t Ht) as [e1 H1].
  destruct (H23 T _ H1) as [e2 H2]. exists (e1 ++ e2). by rewrite app_assoc.
Qed.

Lemma grows_alter_add_column d tbl c ty d' :
  alter_add_column d tbl c ty = inr d' → grows d d'.
Proof.
  unfold alter_add_column. destruct (d !! tbl) as [t|] eqn:Ht; [|done].
  destruct (has_column t c); [done|]. intros [= <-] T t' Ht'.
  destruct (decide (T = tbl)) as [->|Hne].
  - rewrite lookup_insert_eq. rewrite Ht in Ht'. injection Ht' as <-. by eexists.
  - rewrite lookup_insert_ne by done. exists []. by rewrite app_nil_r.
Qed.

Lemma get_column_grows d d' tbl c col :
  grows d d' → get_column d tbl c = Some col → get_column d' tbl c = Some col.
Proof.
  intros Hg. unfold get_column. destruct (d !! tbl) as [t|] eqn:Ht; [|done].
  destruct (Hg tbl t Ht) as [ext ->]. cbn.
  destruct (list_find _ t) as [[i x]|] eqn:Hf; [|done].
  intros [= <-]. by rewrite (list_find_app_l _ _ _ _ _ Hf).
Qed.

Lemma evolve_grows h tbl targets d0 :
  keeps (λ p, grows d0 (db p)) (evolve h tbl targets).
Proof.
  apply keeps_evolve.
  - by intros s p Hp.
  - intros p Hp. unfold sqlite3_connect. by destruct (refuses h _).
  - intros p Hp. unfold pragma_table_info. by destruct (refuses h _).
  - intros cty _ p Hp. unfold execute_add_column.
    destruct (alter_add_column _ _ _ _) as [e|d'] eqn:Ha; [done|].
    destruct (refuses h _); [done|]. cbn.
    eapply grows_trans; [done|]. by eapply grows_alter_add_column.
  - intros p Hp. unfold conn_commit. by destruct (refuses h _).
  - intros p Hp. unfold conn_close. by destruct (refuses h _).
Qed.

Lemma evolve_run_grows h tbl targets :
  grows (disk h) (db (evolve_run h tbl targets).2).
Proof.
  pose proof (evolve_grows h tbl targets (disk h) (boot h) (grows_refl _)) as H.
  unfold evolve_run. by destruct (evolve h tbl targets (boot h)) as [[[]|e] p].
Qed.

(** ** How a run ends *)

Lemma db_errors_logged_ok p op :
  db_errors (logged p op None) = db_errors p.
Proof. unfold db_errors, logged. cbn. rewrite omap_app. cbn. by rewrite app_nil_r. Qed.

Lemma db_errors_logged_err p op e :
  db_errors (logged p op (Some e)) = db_errors p ++ [(op, e)].
Proof. unfold db_errors, logged. cbn. by rewrite omap_app. Qed.

Lemma head_snoc {A} (l : list A) x y : head l = Some x → head (l ++ [y]) = Some x.
Proof. by destruct l. Qed.

(** [print] never raises. *)
Lemma triple_print P s (Q : proc → Prop) E :
  (∀ p, P p → Q (Proc (db p) (handles p) (stdout p ++ [s]) (db_log p))) →
  triple P (print s) (λ _, Q) E.
Proof. intros H p Hp. by apply H. Qed.

(** A database call made on an open connection leaves it open and
    clean, or stops the run with its error. *)
Lemma call_connected h {A} (m : py A) op :
  (∀ p, (∃ a d, m p = (Ok a, Proc d (handles p) (stdout p) (db_log p ++ [(op, None)])))
        ∨ (∃ e, m p = (Raise e, logged p op (Some e)))) →
  triple (connected h) m (λ _, connected h) (stopped h).
Proof.
  intros Hm p (Herr & Hh & Hhead).
  destruct (Hm p) as [(a & d & ->)|(e & ->)].
  - split; [|split; [done|]].
    + change (db_errors (logged p op None) = []). by rewrite db_errors_logged_ok.
    + by apply head_snoc.
  - split.
    + exists op. rewrite db_errors_logged_err, Herr. split; [done|]. apply last_snoc.
    + by apply head_snoc.
Qed.

Lemma pragma_connected h tbl :
  triple (connected h) (pragma_table_info h tbl) (λ _, connected h) (stopped h).
Proof.
  apply (call_connected h _ (TableInfo tbl)). intros p. unfold pragma_table_info.
  destruct (refuses h _) as [e|]; [right|left]; eauto.
Qed.

Lemma add_column_connected h tbl c ty :
  triple (connected h) (execute_add_column h tbl c ty) (λ _, connected h) (stopped h).
Proof.
  apply (call_connected h _ (AddColumn tbl c ty)). intros p. unfold execute_add_column.
  destruct (alter_add_column _ _ _ _) as [e|d]; [right; eauto|].
  destruct (refuses h _) as [e|]; [right|left]; eauto.
Qed.

Lemma commit_connected h :
  triple (connected h) (conn_commit h) (λ _, connected h) (stopped h).
Proof.
  apply (call_connected h _ Commit). intros p. unfold conn_commit.
  destruct (refuses h _) as [e|]; [right|left]; eauto.
Qed.

Lemma add_all_connected h tbl columns targets :
  triple (connected h) (add_all h tbl columns targets) (λ _, connected h) (stopped h).
Proof.
  induction targets as [|cty rest IH]; cbn [add_all].
  - by intros p Hp.
  - eapply triple_bind; [|intros ?; apply IH].
    unfold add_if_missing. case_bool_decide.
    + eapply triple_bind; [|intros ?; apply add_column_connected].
      by apply triple_print.
    + by apply triple_print.
Qed.

Lemma connect_connected h :
  triple (λ p, db_log p = [] ∧ handles p = 0) (sqlite3_connect h db_path)
         (λ _, connected h) (stopped h).
Proof.
  intros p [Hl Hh]. unfold sqlite3_connect, connected, stopped, opened_by_script, db_errors.
  destruct (refuses h _) as [e|]; cbn; rewrite Hl; cbn; [|by rewrite Hh].
  split; [|done]. by eexists.
Qed.

Lemma close_finished h :
  triple (connected h) (conn_close h) (λ _, finished h) (stopped h).
Proof.
  intros p (Herr & Hh & Hhead). unfold conn_close.
  destruct (refuses h _) as [e|].
  - split.
    + exists Close. rewrite db_errors_logged_err, Herr. split; [done|]. apply last_snoc.
    + by apply head_snoc.
  - split; [|split; [|split]].
    + change (db_errors (logged p Close None) = []). by rewrite db_errors_logged_ok.
    + cbn. by rewrite Hh.
    + by apply head_snoc.
    + apply last_snoc.
Qed.

Lemma evolve_body_outcome h tbl targets :
  triple (λ p, db_log p = [] ∧ handles p = 0) (evolve_body h tbl targets)
         (λ _ p, finished h p ∧
                 last (stdout p) = Some "Migration completed successfully.")
         (stopped h).
Proof.
  unfold evolve_body.
  eapply triple_bind; [apply connect_connected|intros ?].
  eapply triple_bind; [apply pragma_connected|intros rows].
  eapply triple_bind; [apply add_all_connected|intros ?].
  eapply triple_bind; [apply commit_connected|intros ?].
  eapply triple_bind; [apply close_finished|intros ?].
  intros p Hp. split; [done|]. apply last_snoc.
Qed.

(** A run on a host that has the file never raises, and ends in one of
    two ways. *)
Lemma evolve_outcome h tbl targets :
  db_path ∈ fs h →
  let r := evolve_run h tbl targets in
  r.1 = Ok tt ∧
  ((finished h r.2 ∧ last (stdout r.2) = Some "Migration completed successfully.") ∨
   (∃ e, stopped h e r.2 ∧ last (stdout r.2) = Some ("Migration failed: " +:+ e))).
Proof.
  intros Hfs r. subst r. unfold evolve_run, evolve.
  erewrite bind_ok; [|reflexivity]. rewrite bool_decide_eq_true_2 by done.
  cbn [negb]. unfold try_except.
  pose proof (evolve_body_outcome h tbl targets (boot h) (conj eq_refl eq_refl)) as H.
  destruct (evolve_body h tbl targets (boot h)) as [[[]|e] p].
  - split; [done|]. by left.
  - split; [done|]. right. exists e. split; [done|]. apply last_snoc.
Qed.

Lemma evolve_run_no_file h tbl targets :
  db_path ∉ fs h →
  evolve_run h tbl targets =
    (Ok tt, Proc (disk h) 0 ["Database not found at " +:+ db_path] []).
Proof.
  intros Hfs. unfold evolve_run, evolve.
  erewrite bind_ok; [|reflexivity]. by rewrite bool_decide_eq_false_2.
Qed.

(** ** A column that is already there *)

Lemma left_alone_step tbl c p d n out op r :
  left_alone tbl c p → grows (db p) d →
  (∀ tbl' ty', op ≠ AddColumn tbl' c ty') →
  left_alone tbl c (Proc d n out (db_log p ++ [(op, r)])).
Proof.
  intros [Hatt (t & Ht & Hc)] Hg Hop. split.
  - unfold attempted in *. cbn [db_log]. rewrite omap_app, elem_of_app.
    intros [?|Hin]; [done|]. destruct op; cbn in Hin; try by apply elem_of_nil in Hin.
    apply list_elem_of_singleton in Hin as ->. by eapply Hop.
  - destruct (Hg tbl t Ht) as [ext Hext]. exists (t ++ ext). split; [done|].
    unfold names. rewrite fmap_app, elem_of_app. by left.
Qed.

Lemma left_alone_print tbl c s : keeps (left_alone tbl c) (print s).
Proof. by intros p Hp. Qed.

Lemma left_alone_connect h tbl c : keeps (left_alone tbl c) (sqlite3_connect h db_path).
Proof.
  intros p Hp. unfold sqlite3_connect, logged.
  destruct (refuses h _); by apply left_alone_step; [|apply grows_refl|].
Qed.

Lemma left_alone_commit h tbl c : keeps (left_alone tbl c) (conn_commit h).
Proof.
  intros p Hp. unfold conn_commit, logged.
  destruct (refuses h _); by apply left_alone_step; [|apply grows_refl|].
Qed.

Lemma left_alone_close h tbl c : keeps (left_alone tbl c) (conn_close h).
Proof.
  intros p Hp. unfold conn_close, logged.
  destruct (refuses h _); by apply left_alone_step; [|apply grows_refl|].
Qed.

Lemma left_alone_add_column h tbl c tbl' c' ty' :
  c' ≠ c → keeps (left_alone tbl c) (execute_add_column h tbl' c' ty').
Proof.
  intros Hne p Hp. unfold execute_add_column, logged.
  destruct (alter_add_column _ _ _ _) as [e|d] eqn:Ha.
  - apply left_alone_step; [done|apply grows_refl|]. by intros ?? [= _ ? _].
  - destruct (refuses h _).
    + apply left_alone_step; [done|apply grows_refl|]. by intros ?? [= _ ? _].
    + apply left_alone_step; [done|by eapply grows_alter_add_column|].
      by intros ?? [= _ ? _].
Qed.

(** The introspection finds the column. *)
Lemma left_alone_pragma h tbl c :
  triple (left_alone tbl c) (pragma_table_info h tbl)
         (λ rows p, left_alone tbl c p ∧ c ∈ row_1 <$> rows)
         (λ _, left_alone tbl c).
Proof.
  intros p Hp. unfold pragma_table_info, logged.
  destruct (refuses h _).
  - by apply left_alone_step; [|apply grows_refl|].
  - split; [by apply left_alone_step; [|apply grows_refl|]|].
    destruct Hp as [_ (t & -> & Hc)]. by rewrite row_1_table_info.
Qed.

Lemma left_alone_add_all h tbl c columns targets :
  c ∈ columns → keeps (left_alone tbl c) (add_all h tbl columns targets).
Proof.
  intros Hc. apply keeps_add_all. intros cty.
  apply keeps_add_if_missing; [intros s; apply left_alone_print|].
  intros Hout. apply left_alone_add_column. intros Heq. apply Hout. by rewrite Heq.
Qed.

Lemma reported_present_add_all h tbl c ty columns targets :
  c ∈ columns → (c, ty) ∈ targets →
  triple (λ _, True) (add_all h tbl columns targets)
         (λ _, reported_present c) (λ _ _, True).
Proof.
  intros Hc Hin. induction targets as [|cty rest IH]; [by apply elem_of_nil in Hin|].
  apply elem_of_cons in Hin as [<-|Hin]; cbn [add_all].
  - eapply triple_bind with (Q := λ _, reported_present c).
    + unfold add_if_missing. cbn [fst snd].
      rewrite bool_decide_eq_false_2 by (by intros []).
      apply triple_print. intros p _. unfold reported_present. cbn.
      apply elem_of_app. right. left.
    + intros ?. clear IH. induction rest as [|cty rest IH]; cbn [add_all].
      * by intros p Hp.
      * eapply triple_bind with (Q := λ _, reported_present c); [|by intros ?].
        unfold add_if_missing. case_bool_decide.
        -- eapply triple_bind with (Q := λ _, reported_present c).
           ++ apply triple_print. intros p Hp. unfold reported_present in *. cbn.
              apply elem_of_app. by left.
           ++ intros ? p Hp. unfold execute_add_column.
              destruct (alter_add_column _ _ _ _); [done|]. by destruct (refuses h _).
        -- apply triple_print. intros p Hp. unfold reported_present in *. cbn.
           apply elem_of_app. by left.
  - eapply triple_bind with (Q := λ _ _, True); [|intros ?; by apply IH].
    intros p _. by destruct (add_if_missing h tbl columns cty p) as [[]].
Qed.

Lemma triple_and {A} P1 P2 (m : py A) Q1 Q2 E1 E2 :
  triple P1 m Q1 E1 → triple P2 m Q2 E2 →
  triple (λ p, P1 p ∧ P2 p) m (λ a p, Q1 a p ∧ Q2 a p) (λ e p, E1 e p ∧ E2 e p).
Proof.
  intros H1 H2 p [Hp1 Hp2]. specialize (H1 p Hp1). specialize (H2 p Hp2).
  by destruct (m p) as [[a|e] p'].
Qed.

Lemma evolve_body_left_alone h tbl targets c ty :
  (c, ty) ∈ targets →
  triple (left_alone tbl c) (evolve_body h tbl targets)
         (λ _ p, left_alone tbl c p ∧ reported_present c p)
         (λ _, left_alone tbl c).
Proof.
  intros Hin. unfold evolve_body.
  eapply triple_bind; [apply left_alone_connect|intros ?].
  eapply triple_bind; [apply left_alone_pragma|intros rows].
  cbn beta. intros p [Hp Hc]. revert p Hp.
  change (triple (left_alone tbl c)
            (add_all h tbl (row_1 <$> rows) targets;;
             conn_commit h;; conn_close h;; print "Migration completed successfully.")
            (λ _ p, left_alone tbl c p ∧ reported_present c p)
            (λ _, left_alone tbl c)).
  eapply triple_bind with (Q := λ _ p, left_alone tbl c p ∧ reported_present c p).
  { eapply triple_conseq.
    - apply triple_and; [by apply (left_alone_add_all h tbl c)|
                         by apply (reported_present_add_all h tbl c ty)].
    - intros p Hp. by split.
    - done.
    - by intros e p [? _]. }
  intros ?.
  eapply triple_bind with (Q := λ _ p, left_alone tbl c p ∧ reported_present c p).
  { intros p [Hp Hr]. pose proof (left_alone_commit h tbl c p Hp) as H.
    unfold conn_commit in *. by destruct (refuses h _). }
  intros ?.
  eapply triple_bind with (Q := λ _ p, left_alone tbl c p ∧ reported_present c p).
  { intros p [Hp Hr]. pose proof (left_alone_close h tbl c p Hp) as H.
    unfold conn_close in *. by destruct (refuses h _). }
  intros _. apply triple_print. intros p [Hp Hr]. split; [done|].
  unfold reported_present in *. cbn. apply elem_of_app. by left.
Qed.

(** ** Runs on catalogs with the same column names *)

Lemma same_course_bind {A B} (R : A → A → Prop) (S : B → B → Prop)
    (m1 m2 : py A) (f1 f2 : A → py B) :
  same_course R m1 m2 →
  (∀ a1 a2, R a1 a2 → same_course S (f1 a1) (f2 a2)) →
  same_course S (m1 ≫= f1) (m2 ≫= f2).
Proof.
  intros Hm Hf p1 p2 Hp. destruct (Hm p1 p2 Hp) as [Hal Hres].
  unfold mbind, py_bind.
  destruct (m1 p1) as [[a1|e1] q1], (m2 p2) as [[a2|e2] q2]; cbn in *; try done.
  by apply Hf.
Qed.

Lemma same_course_try (b1 b2 : py unit) (k1 k2 : string → py unit) :
  same_course eq b1 b2 → (∀ e, same_course eq (k1 e) (k2 e)) →
  same_course eq (try_except b1 k1) (try_except b2 k2).
Proof.
  intros Hb Hk p1 p2 Hp. destruct (Hb p1 p2 Hp) as [Hal Hres].
  unfold try_except.
  destruct (b1 p1) as [[[]|e1] q1], (b2 p2) as [[[]|e2] q2]; cbn in *; try done.
  subst e2. by apply Hk.
Qed.

Lemma same_course_print s : same_course eq (print s) (print s).
Proof.
  intros p1 p2 (Hd & Hh & Ho & Hl). split; [|done].
  split; [done|]. split; [done|]. split; [|done]. cbn. by rewrite Ho.
Qed.

Lemma same_names_lookup d1 d2 T t1 :
  same_names d1 d2 → d1 !! T = Some t1 → ∃ t2, d2 !! T = Some t2 ∧ names t1 = names t2.
Proof.
  intros Hs Ht. specialize (Hs T). rewrite Ht in Hs.
  destruct (d2 !! T) as [t2|]; [|done]. injection Hs as Hs. by exists t2.
Qed.

Lemma same_names_none d1 d2 T : same_names d1 d2 → d1 !! T = None → d2 !! T = None.
Proof.
  intros Hs Ht. specialize (Hs T). rewrite Ht in Hs. by destruct (d2 !! T).
Qed.

Lemma same_names_insert d1 d2 T t1 t2 :
  same_names d1 d2 → names t1 = names t2 →
  same_names (<[T := t1]> d1) (<[T := t2]> d2).
Proof.
  intros Hs Hn T'. destruct (decide (T = T')) as [->|Hne].
  - rewrite !lookup_insert_eq. cbn. by rewrite Hn.
  - rewrite !lookup_insert_ne by done. apply Hs.
Qed.

Section TwoHosts.
Variables h1 h2 : host.
Hypothesis same_files : fs h1 = fs h2.
Hypothesis same_refusals : ∀ op, refuses h1 op = refuses h2 op.

Lemma same_course_connect path :
  same_course eq (sqlite3_connect h1 path) (sqlite3_connect h2 path).
Proof.
  intros p1 p2 (Hd & Hh & Ho & Hl). unfold sqlite3_connect, logged, alike.
  rewrite same_refusals. destruct (refuses h2 _); cbn; by rewrite Hh, Hl.
Qed.

Lemma same_course_pragma tbl :
  same_course (λ r1 r2, row_1 <$> r1 = row_1 <$> r2)
              (pragma_table_info h1 tbl) (pragma_table_info h2 tbl).
Proof.
  intros p1 p2 (Hd & Hh & Ho & Hl). unfold pragma_table_info, logged, alike.
  rewrite same_refusals. destruct (refuses h2 _); cbn; rewrite Hl; [done|].
  split; [done|]. rewrite !row_1_table_info.
  destruct (db p1 !! tbl) as [t1|] eqn:Ht.
  - destruct (same_names_lookup _ _ _ _ Hd Ht) as (t2 & -> & Hn). done.
  - by rewrite (same_names_none _ _ _ Hd Ht).
Qed.

Lemma same_course_add_column tbl c ty :
  same_course eq (execute_add_column h1 tbl c ty) (execute_add_column h2 tbl c ty).
Proof.
  intros p1 p2 (Hd & Hh & Ho & Hl).
  unfold execute_add_column, alter_add_column, logged, alike.
  rewrite same_refusals.
  destruct (db p1 !! tbl) as [t1|] eqn:Ht.
  - destruct (same_names_lookup _ _ _ _ Hd Ht) as (t2 & -> & Hn).
    unfold has_column. rewrite Hn. case_bool_decide; cbn; [by rewrite Hl|].
    destruct (refuses h2 _); cbn; rewrite Hl; [done|].
    split; [|done]. split; [|done].
    apply same_names_insert; [done|]. by rewrite !names_add_column, Hn.
  - rewrite (same_names_none _ _ _ Hd Ht). cbn. by rewrite Hl.
Qed.

Lemma same_course_commit : same_course eq (conn_commit h1) (conn_commit h2).
Proof.
  intros p1 p2 (Hd & Hh & Ho & Hl). unfold conn_commit, logged, alike.
  rewrite same_refusals. destruct (refuses h2 _); cbn; by rewrite Hl.
Qed.

Lemma same_course_close : same_course eq (conn_close h1) (conn_close h2).
Proof.
  intros p1 p2 (Hd & Hh & Ho & Hl). unfold conn_close, logged, alike.
  rewrite same_refusals. destruct (refuses h2 _); cbn; by rewrite Hh, Hl.
Qed.

Lemma same_course_add_all tbl columns targets :
  same_course eq (add_all h1 tbl columns targets) (add_all h2 tbl columns targets).
Proof.
  induction targets as [|cty rest IH]; cbn [add_all].
  - by intros p1 p2 Hp.
  - eapply same_course_bind; [|by intros ???].
    unfold add_if_missing. case_bool_decide; [|apply same_course_print].
    eapply same_course_bind; [apply same_course_print|intros ???].
    apply same_course_add_column.
Qed.

Lemma same_course_evolve tbl targets :
  same_course eq (evolve h1 tbl targets) (evolve h2 tbl targets).
Proof.
  unfold evolve, os_path_exists. rewrite same_files.
  eapply same_course_bind with (R := eq); [by intros p1 p2 Hp|].
  intros found ? <-. destruct (negb found); [apply same_course_print|].
  apply same_course_try; [|intros e; apply same_course_print].
  unfold evolve_body.
  eapply same_course_bind; [apply same_course_connect|intros ???].
  eapply same_course_bind; [apply same_course_pragma|intros r1 r2 Hr].
  cbn beta. rewrite Hr.
  eapply same_course_bind; [apply same_course_add_all|intros ???].
  eapply same_course_bind; [apply same_course_commit|intros ???].
  eapply same_course_bind; [apply same_course_close|intros ???].
  apply same_course_print.
Qed.
End TwoHosts.

(** ** A run that ends without a database error *)






(** ** The claims *)

(** C10. When no file exists at the configured path the script opens no
    connection and makes no database call: the catalog is as it was, and
    the only output is the not-found line. *)
Theorem no_file_no_database_call h :
  db_path ∉ fs h →
  run h = (Ok tt,
           Proc (disk h) 0
                ["Database not found at C:\poswaza\temp\db\pos_local.db"] []).
Proof.
  intros Hfs. unfold run, migrate_settings.
  erewrite bind_ok; [|reflexivity].
  by rewrite bool_decide_eq_false_2.
Qed.

Lemma no_file_no_database_call_witness :
  run no_file = (Ok tt,
                 Proc (disk no_file) 0
                      ["Database not found at C:\poswaza\temp\db\pos_local.db"] []).
Proof. apply no_file_no_database_call. vm_compute. discriminate. Defined.

(** C2. The reference scenario: on a table [pop_config] with the columns
    [id] and [name], the first run adds [address_vente] and then
    [site_livraison], each by one [ADD COLUMN] in that order, and skips
    nothing; the second run adds nothing and skips both. *)
Theorem reference_scenario h t :
  db_path ∈ fs h → willing h →
  disk h !! "pop_config" = Some t → names t = ["id"; "name"] →
  let r1 := run h in
  let r2 := run (after h r1.2) in
  r1.1 = Ok tt ∧
  added r1.2 = ["address_vente"; "site_livraison"] ∧
  skipped ["address_vente"; "site_livraison"] r1.2 = [] ∧
  db_log r1.2 =
    [(Connect db_path, None); (TableInfo "pop_config", None);
     (AddColumn "pop_config" "address_vente" "TEXT", None);
     (AddColumn "pop_config" "site_livraison" "TEXT", None);
     (Commit, None); (Close, None)] ∧
  db r1.2 =
    <["pop_config" := t ++ [new_column (nrows t) "address_vente" "TEXT";
                            new_column (nrows t) "site_livraison" "TEXT"]]> (disk h) ∧
  r2.1 = Ok tt ∧
  added r2.2 = [] ∧
  skipped ["address_vente"; "site_livraison"] r2.2
    = ["address_vente"; "site_livraison"] ∧
  db r2.2 = db r1.2.
Proof.
  intros Hfs Hw Ht Hn r1 r2.
  assert (missing (names t) pop_config_columns = pop_config_columns) as Hm.
  { rewrite Hn. reflexivity. }
  assert (r1 = (Ok tt,
                Proc (<["pop_config" := foldl add_column t pop_config_columns]> (disk h))
                     0
                     ((progress_line (names t) <$> pop_config_columns) ++
                        ["Migration completed successfully."])
                     ((Connect db_path, None) :: (TableInfo "pop_config", None) ::
                        (add_event "pop_config" <$> pop_config_columns) ++
                        [(Commit, None); (Close, None)]))) as E1.
  { subst r1. rewrite run_evolve.
    rewrite (evolve_run_ok h _ _ t); rewrite ?Hm; try done.
    - intros cty Hcty. unfold has_column. rewrite Hn.
      apply list_elem_of_In in Hcty. cbn in Hcty.
      destruct Hcty as [<-|[<-|[]]]; reflexivity.
    - cbn. repeat constructor; rewrite ?list_elem_of_In; cbn; intuition discriminate. }
  assert (r2 = (Ok tt,
                Proc (db r1.2) 0
                     ((progress_line (names (foldl add_column t pop_config_columns))
                         <$> pop_config_columns) ++
                        ["Migration completed successfully."])
                     [(Connect db_path, None); (TableInfo "pop_config", None);
                      (Commit, None); (Close, None)])) as E2.
  { subst r2. rewrite run_evolve.
    rewrite (evolve_run_again _ _ _ (foldl add_column t pop_config_columns));
      rewrite ?E1; cbn [after fs disk refuses db snd]; try done.
    - apply lookup_insert_eq.
    - intros cty Hcty. rewrite names_foldl_add_column, Hn.
      apply list_elem_of_In in Hcty. cbn in Hcty. apply list_elem_of_In.
      destruct Hcty as [<-|[<-|[]]]; cbn; auto. }
  rewrite E2, E1. cbn [fst snd db db_log].
  change ["address_vente"; "site_livraison"] with (pop_config_columns.*1).
  rewrite !skipped_of_good_run, names_foldl_add_column, Hn.
  rewrite foldl_add_column.
  repeat split; reflexivity.
Qed.

Lemma reference_scenario_witness :
  let r1 := run shop in
  let r2 := run (after shop r1.2) in
  added r1.2 = ["address_vente"; "site_livraison"] ∧
  skipped ["address_vente"; "site_livraison"] r1.2 = [] ∧
  added r2.2 = [] ∧
  skipped ["address_vente"; "site_livraison"] r2.2
    = ["address_vente"; "site_livraison"].
Proof.
  destruct (reference_scenario shop [col_id; col_nm]) as (_ & A1 & S1 & _ & _ & _ & A2 & S2 & _).
  - vm_compute. reflexivity.
  - intros op. reflexivity.
  - reflexivity.
  - reflexivity.
  - exact (conj A1 (conj S1 (conj A2 S2))).
Defined.

(** C1, as the script has it.  For targets with distinct names, an
    existing table and a database that accepts every statement: the
    first run adds the targets whose names the table lacks, in declared
    order -- all of them when the table has none -- and the second run
    adds nothing, reports every target as skipped and leaves the catalog
    as the first run left it. *)
Theorem evolve_twice h tbl targets t :
  db_path ∈ fs h → willing h → disk h !! tbl = Some t →
  exact_names t targets.*1 → distinct_names targets.*1 →
  let p1 := (evolve_run h tbl targets).2 in
  let p2 := (evolve_run (after h p1) tbl targets).2 in
  added p1 = (missing (names t) targets).*1 ∧
  skipped targets.*1 p1 = filter (λ c, c ∈ names t) targets.*1 ∧
  ((∀ c, c ∈ targets.*1 → c ∉ names t) →
     added p1 = targets.*1 ∧ skipped targets.*1 p1 = []) ∧
  added p2 = [] ∧
  skipped targets.*1 p2 = targets.*1 ∧
  db p2 = db p1.
Proof.
  intros Hfs Hw Ht Hex Hnd p1 p2.
  destruct (missing_conditions t targets Hex Hnd) as [Hm1 Hm2].
  pose proof (evolve_run_ok h tbl targets t Hfs Hw Ht Hm1 Hm2) as E1.
  set (t' := foldl add_column t (missing (names t) targets)) in *.
  assert (∀ cty, cty ∈ targets → cty.1 ∈ names t') as Hall.
  { intros cty Hin. subst t'. rewrite names_foldl_add_column, elem_of_app.
    destruct (decide (cty.1 ∈ names t)) as [|Hn]; [by left|right].
    apply list_elem_of_fmap_2. by apply list_elem_of_filter. }
  assert (added p1 = (missing (names t) targets).*1) as A1.
  { subst p1. rewrite E1. apply added_of_good_log. }
  assert (skipped targets.*1 p1 = filter (λ c, c ∈ names t) targets.*1) as S1.
  { subst p1. rewrite E1. apply skipped_of_good_run. }
  assert (evolve_run (after h p1) tbl targets =
            (Ok tt,
             Proc (db p1) 0
                  ((progress_line (names t') <$> targets) ++
                     ["Migration completed successfully."])
                  [(Connect db_path, None); (TableInfo tbl, None);
                   (Commit, None); (Close, None)])) as E2.
  { apply (evolve_run_again (after h p1) tbl targets t'); try done.
    subst p1. rewrite E1. apply lookup_insert_eq. }
  split; [done|]. split; [done|]. split; [|split; [|split]].
  - intros Hnone. rewrite A1, S1. split.
    + unfold missing. rewrite filter_all; [done|].
      intros cty Hin. apply Hnone. by apply list_elem_of_fmap_2.
    + by apply filter_none.
  - subst p2. by rewrite E2.
  - subst p2. rewrite E2. cbn [snd]. rewrite skipped_of_good_run. apply filter_all.
    intros c (cty & -> & Hin)%list_elem_of_fmap. by apply Hall.
  - subst p2. by rewrite E2.
Qed.

Lemma evolve_twice_witness :
  let p1 := (evolve_run shop "pop_config" pop_config_columns).2 in
  let p2 := (evolve_run (after shop p1) "pop_config" pop_config_columns).2 in
  added p1 = ["address_vente"; "site_livraison"] ∧ added p2 = [] ∧ db p2 = db p1.
Proof.
  destruct (evolve_twice shop "pop_config" pop_config_columns [col_id; col_nm])
    as (A1 & _ & _ & A2 & _ & D).
  - vm_compute. reflexivity.
  - intros op. reflexivity.
  - reflexivity.
  - intros c Hc. vm_compute in Hc. vm_compute.
    apply list_elem_of_In in Hc. cbn in Hc.
    destruct Hc as [<-|[<-|[]]]; discriminate.
  - vm_compute. repeat constructor; rewrite list_elem_of_In; cbn; intuition discriminate.
  - exact (conj A1 (conj A2 D)).
Defined.

(** C1 as worded fails when the table already has one of the target
    columns: the first run then adds only the other one. *)
Lemma first_run_adds_only_missing :
  added (run half_done).2 = ["site_livraison"] ∧
  added (run half_done).2 ≠ ["address_vente"; "site_livraison"] ∧
  added (run (after half_done (run half_done).2)).2 = [].
Proof. vm_compute. repeat split. discriminate. Qed.



(** C5. Whatever the targets -- a superset of the existing columns or
    not -- and however the run ends, every table keeps the columns it
    had, in place and unchanged (name, declared type, stored cells):
    the run only appends columns. *)
Theorem non_destructive h tbl targets T t :
  disk h !! T = Some t →
  let p := (evolve_run h tbl targets).2 in
  (∃ ext, db p !! T = Some (t ++ ext)) ∧
  (∀ c col, get_column (disk h) T c = Some col → get_column (db p) T c = Some col) ∧
  (run h).2 = (evolve_run h "pop_config" pop_config_columns).2.
Proof.
  intros Ht p. split; [|split].
  - by apply (evolve_run_grows h tbl targets).
  - intros c col. apply get_column_grows, evolve_run_grows.
  - by rewrite run_evolve.
Qed.

Lemma non_destructive_witness :
  get_column (db (run half_done).2) "pop_config" "address_vente" = Some col_av_int.
Proof.
  destruct (non_destructive half_done "pop_config" pop_config_columns
              "pop_config" [col_id; col_av_int]) as (_ & H & E).
  - reflexivity.
  - rewrite E. apply H. reflexivity.
Defined.




Lemma attempted_add_events tbl l :
  omap (λ ev : db_op * option string,
          match ev with
          | (AddColumn _ c _, _) => Some c
          | _ => None
          end) (add_event tbl <$> l) = l.*1.
Proof. induction l as [|cty l IH]; [done|]. cbn. by rewrite IH. Qed.

Lemma db_errors_add_events tbl l :
  omap (λ ev : db_op * option string,
          match ev with
          | (op, Some e) => Some (op, e)
          | _ => None
          end) (add_event tbl <$> l) = [].
Proof. induction l as [|cty l IH]; [done|]. cbn. by rewrite IH. Qed.

(** C3, as the script has it.  When the database refuses the [ADD
    COLUMN] of a column the table lacks, the columns added before it
    stay in the table and nothing after it is tried.  The script raises
    nothing: it prints the progress line of the refused column and then
    [Migration failed:] followed by the database's message, which is all
    the failure line carries. *)
Theorem partial_failure h tbl pre c ty post e t :
  db_path ∈ fs h →
  refuses h (Connect db_path) = None → refuses h (TableInfo tbl) = None →
  disk h !! tbl = Some t →
  exact_names t (pre ++ [(c, ty)]).*1 → distinct_names (pre ++ [(c, ty)]).*1 →
  (∀ cty, cty ∈ pre → refuses h (AddColumn tbl cty.1 cty.2) = None) →
  c ∉ names t → refuses h (AddColumn tbl c ty) = Some e →
  let r := evolve_run h tbl (pre ++ (c, ty) :: post) in
  r.1 = Ok tt ∧
  added r.2 = (missing (names t) pre).*1 ∧
  (∃ t', db r.2 !! tbl = Some t' ∧
         names t' = names t ++ (missing (names t) pre).*1) ∧
  attempted r.2 = (missing (names t) pre).*1 ++ [c] ∧
  db_errors r.2 = [(AddColumn tbl c ty, e)] ∧
  stdout r.2 = (progress_line (names t) <$> pre) ++
                 ["Adding column " +:+ c +:+ "..."; "Migration failed: " +:+ e].
Proof.
  intros Hfs Hc Hi Ht Hex Hnd Hpre Hout Hr r.
  destruct (missing_conditions t _ Hex Hnd) as [Hm1 Hm2].
  assert (has_column t c = false) as Hhas.
  { apply (Hm1 (c, ty)). apply list_elem_of_filter. split; [done|].
    apply elem_of_app. right. left. }
  subst r. rewrite (evolve_run_refused h tbl pre c ty post e t); try done.
  - cbn [fst snd db stdout]. unfold added, attempted, db_errors. cbn [db_log].
    cbn [omap list_omap].
    rewrite !omap_app, added_add_events, attempted_add_events, db_errors_add_events.
    cbn [omap list_omap app]. rewrite ?app_nil_r, lookup_insert_eq.
    repeat split; try done. eexists. split; [done|].
    apply names_foldl_add_column.
  - intros cty Hcty. apply list_elem_of_filter in Hcty as [Hno Hin]. split.
    + apply (Hm1 cty). apply list_elem_of_filter. split; [done|].
      apply elem_of_app. by left.
    + by apply Hpre.
Qed.

Lemma partial_failure_witness :
  let r := run full_second in
  added r.2 = ["address_vente"] ∧
  attempted r.2 = ["address_vente"; "site_livraison"] ∧
  stdout r.2 = ["Adding column address_vente..."; "Adding column site_livraison...";
                "Migration failed: database or disk is full"].
Proof.
  destruct (partial_failure full_second "pop_config" [("address_vente", "TEXT")]
              "site_livraison" "TEXT" [] "database or disk is full" [col_id; col_nm])
    as (_ & A & _ & T & _ & O).
  - vm_compute. reflexivity.
  - reflexivity.
  - reflexivity.
  - reflexivity.
  - intros c Hc. vm_compute in Hc. vm_compute.
    apply list_elem_of_In in Hc. cbn in Hc.
    destruct Hc as [<-|[<-|[]]]; discriminate.
  - vm_compute. repeat constructor; rewrite list_elem_of_In; cbn; intuition discriminate.
  - intros cty Hcty. apply list_elem_of_In in Hcty. cbn in Hcty.
    destruct Hcty as [<-|[]]. reflexivity.
  - intros Hin. apply list_elem_of_In in Hin. cbn in Hin. intuition discriminate.
  - reflexivity.
  - rewrite run_evolve. exact (conj A (conj T O)).
Defined.

(** C3 as worded fails on what the error identifies: a disk that fills
    up at the first column and one that fills up at the second end with
    the same failure line, and neither run raises; only the progress
    lines before it tell the two apart. *)
Lemma failure_line_names_no_column :
  (run full_first).1 = Ok tt ∧ (run full_second).1 = Ok tt ∧
  last (stdout (run full_first).2) = Some "Migration failed: database or disk is full" ∧
  last (stdout (run full_second).2) = Some "Migration failed: database or disk is full" ∧
  attempted (run full_first).2 = ["address_vente"] ∧
  attempted (run full_second).2 = ["address_vente"; "site_livraison"] ∧
  added (run full_first).2 = [] ∧
  added (run full_second).2 = ["address_vente"] ∧
  last (attempted (run full_first).2) ≠ last (attempted (run full_second).2).
Proof. vm_compute. repeat split; discriminate. Qed.

(** C7, as the script has it.  No run raises.  A database error that
    arises is the only one of its run, and the script's last output line
    is [Migration failed:] followed by the database's own message; the
    script adds no table or column name to it.  A run on an existing
    file without a database error ends with the success line.  What a
    run shows is its output and the change of the catalog. *)
Theorem errors_are_printed h tbl targets :
  let r := evolve_run h tbl targets in
  r.1 = Ok tt ∧
  stdout r.2 ≠ [] ∧
  (∀ op e, (op, e) ∈ db_errors r.2 →
     db_errors r.2 = [(op, e)] ∧
     last (stdout r.2) = Some ("Migration failed: " +:+ e)) ∧
  (db_errors r.2 = [] → db_path ∈ fs h →
     last (stdout r.2) = Some "Migration completed successfully.") ∧
  run h = evolve_run h "pop_config" pop_config_columns.
Proof.
  intros r. destruct (decide (db_path ∈ fs h)) as [Hfs|Hfs].
  - destruct (evolve_outcome h tbl targets Hfs) as [Hok Hend]. fold r in Hok, Hend.
    split; [done|]. split; [|split; [|split]].
    + intros Hnil. rewrite Hnil in Hend. by destruct Hend as [[_ ?]|(? & _ & ?)].
    + intros op e Hin. destruct Hend as [[(Herr & _) _]|(e' & [(op' & Herr & _) _] & Hout)].
      * rewrite Herr in Hin. by apply elem_of_nil in Hin.
      * rewrite Herr in Hin. apply list_elem_of_singleton in Hin as [= -> ->]. done.
    + intros Hnil _. destruct Hend as [[_ ?]|(e' & [(op' & Herr & _) _] & _)]; [done|].
      by rewrite Hnil in Herr.
    + apply run_evolve.
  - subst r. rewrite evolve_run_no_file by done. cbn.
    split; [done|]. split; [done|]. split; [|split].
    + intros op e Hin. by apply elem_of_nil in Hin.
    + done.
    + apply run_evolve.
Qed.

(** C7 as worded fails: the disk fills up at the second column, and the
    run ends normally after printing; the failure line is the one a full
    disk at the first column gives; and the first column stays added. *)
Lemma error_is_printed_not_raised :
  db_errors (run full_second).2 =
    [(AddColumn "pop_config" "site_livraison" "TEXT", "database or disk is full")] ∧
  (run full_second).1 = Ok tt ∧
  (∀ e, (run full_second).1 ≠ Raise e) ∧
  stdout (run full_second).2 =
    ["Adding column address_vente..."; "Adding column site_livraison...";
     "Migration failed: database or disk is full"] ∧
  last (stdout (run full_first).2) = last (stdout (run full_second).2) ∧
  names <$> db (run full_second).2 !! "pop_config" = Some ["id"; "name"; "address_vente"].
Proof. vm_compute. repeat split; discriminate. Qed.

(** C8, as the script has it.  The script is handed no connection: on a
    host that has the file its first database call is its own
    [connect], and when no database call fails its last one is its own
    [close], after which no connection is open. *)
Theorem script_owns_connection h tbl targets :
  db_path ∈ fs h →
  let p := (evolve_run h tbl targets).2 in
  handles (boot h) = 0 ∧
  head (db_log p) = Some (Connect db_path, refuses h (Connect db_path)) ∧
  (db_errors p = [] → last (db_log p) = Some (Close, None) ∧ handles p = 0) ∧
  (run h).2 = (evolve_run h "pop_config" pop_config_columns).2.
Proof.
  intros Hfs p. destruct (evolve_outcome h tbl targets Hfs) as [_ Hend]. fold p in Hend.
  split; [done|]. split; [|split].
  - by destruct Hend as [[(_ & _ & ? & _) _]|(e & [_ ?] & _)].
  - intros Hnil. destruct Hend as [[(_ & ? & _ & ?) _]|(e & [(op & Herr & _) _] & _)]; [done|].
    by rewrite Hnil in Herr.
  - by rewrite run_evolve.
Qed.

Lemma script_owns_connection_witness :
  head (db_log (run shop).2) = Some (Connect db_path, None) ∧
  last (db_log (run shop).2) = Some (Close, None) ∧
  handles (run shop).2 = 0.
Proof.
  destruct (script_owns_connection shop "pop_config" pop_config_columns)
    as (_ & H & L & E).
  - vm_compute. reflexivity.
  - rewrite E. destruct L as [L1 L2]; [reflexivity|]. exact (conj H (conj L1 L2)).
Defined.

(** C8 as worded fails: the script itself opens the connection and
    itself closes it, so none is open when a completed run returns. *)
Lemma script_opens_and_closes :
  (Connect db_path, None) ∈ db_log (run shop).2 ∧
  (Close, None) ∈ db_log (run shop).2 ∧
  handles (run shop).2 = 0 ∧
  ¬ (0 < handles (run shop).2).
Proof.
  assert (db_log (run shop).2 =
            [(Connect db_path, None); (TableInfo "pop_config", None);
             (AddColumn "pop_config" "address_vente" "TEXT", None);
             (AddColumn "pop_config" "site_livraison" "TEXT", None);
             (Commit, None); (Close, None)]) as ->.
  { vm_compute. reflexivity. }
  split; [|split; [|split]].
  - left.
  - do 5 right. left.
  - vm_compute. reflexivity.
  - vm_compute. lia.
Qed.

Lemma get_column_names d tbl c col :
  get_column d tbl c = Some col → ∃ t, d !! tbl = Some t ∧ c ∈ names t.
Proof.
  unfold get_column. destruct (d !! tbl) as [t|]; [|done]. cbn.
  destruct (list_find _ t) as [[i x]|] eqn:Hf; [|done]. intros [= <-].
  apply list_find_Some in Hf as (Hi & <- & _). exists t. split; [done|].
  apply list_elem_of_fmap_2. by eapply list_elem_of_lookup_2.
Qed.

(** C9. Whether a column is added depends on its name alone.  A target
    whose name is already in the table is never the subject of an [ADD
    COLUMN], whatever type the table declares for it and whatever type
    the target asks for; the column stays as it is, and a run without a
    database error prints that it already exists.  And two hosts whose
    catalogs have the same column names, with any declared types and
    cells, see the same output, the same database calls and the same
    end. *)
Theorem decided_by_name h tbl targets c ty col :
  (c, ty) ∈ targets → get_column (disk h) tbl c = Some col →
  let r := evolve_run h tbl targets in
  (c ∉ attempted r.2) ∧
  get_column (db r.2) tbl c = Some col ∧
  (db_errors r.2 = [] → db_path ∈ fs h →
     "Column " +:+ c +:+ " already exists." ∈ stdout r.2) ∧
  (∀ h', fs h' = fs h → (∀ op, refuses h' op = refuses h op) →
         same_names (disk h') (disk h) →
         let r' := evolve_run h' tbl targets in
         r'.1 = r.1 ∧ stdout r'.2 = stdout r.2 ∧ db_log r'.2 = db_log r.2).
Proof.
  intros Hin Hcol r.
  assert (left_alone tbl c (boot h)) as Hboot.
  { split; [apply not_elem_of_nil|]. by eapply get_column_names. }
  assert (get_column (db r.2) tbl c = Some col) as Hkept.
  { eapply get_column_grows; [apply evolve_run_grows|done]. }
  assert (∀ h', fs h' = fs h → (∀ op, refuses h' op = refuses h op) →
                same_names (disk h') (disk h) →
                let r' := evolve_run h' tbl targets in
                r'.1 = r.1 ∧ stdout r'.2 = stdout r.2 ∧ db_log r'.2 = db_log r.2) as Hsame.
  { intros h' Hfs Href Hnames r'.
    destruct (same_course_evolve h' h Hfs Href tbl targets (boot h') (boot h))
      as [(_ & _ & Ho & Hl) Hres]; [by split|].
    fold (evolve_run h' tbl targets) in *. fold (evolve_run h tbl targets) in *.
    fold r r' in Ho, Hl, Hres. split; [|done].
    destruct (r'.1) as [[]|e'], (r.1) as [[]|e]; try done. by subst. }
  destruct (decide (db_path ∈ fs h)) as [Hfs|Hfs].
  - pose proof (triple_and _ _ _ _ _ _ _
                  (evolve_body_outcome h tbl targets)
                  (evolve_body_left_alone h tbl targets c ty Hin)
                  (boot h) (conj (conj eq_refl eq_refl) Hboot)) as Hbody.
    assert ((c ∉ attempted r.2) ∧
            (db_errors r.2 = [] → "Column " +:+ c +:+ " already exists." ∈ stdout r.2))
      as [Hatt Hrep].
    2:{ split; [exact Hatt|]. split; [exact Hkept|].
        split; [intros Hnil _; by apply Hrep | exact Hsame]. }
    clear Hsame Hkept. subst r. unfold evolve_run, evolve.
    erewrite bind_ok; [|reflexivity].
    rewrite bool_decide_eq_true_2 by done. cbn [negb].
    unfold try_except.
    destruct (evolve_body h tbl targets (boot h)) as [[[]|e] p].
    + by destruct Hbody as [_ [[Hatt _] Hrep]].
    + destruct Hbody as [[(op & Herr & _) _] [Hatt _]].
      split; [done|]. intros Hnil. unfold db_errors in *. cbn in Hnil.
      by rewrite Hnil in Herr.
  - assert (r = (Ok tt, Proc (disk h) 0 ["Database not found at " +:+ db_path] []))
      as Hr by (by apply evolve_run_no_file).
    split; [rewrite Hr; apply not_elem_of_nil|]. split; [exact Hkept|].
    split; [by intros _ ?|exact Hsame].
Qed.

Lemma decided_by_name_witness :
  let r := run half_done in
  ("address_vente" ∉ attempted r.2) ∧
  col_type <$> get_column (db r.2) "pop_config" "address_vente" = Some "INTEGER" ∧
  "Column address_vente already exists." ∈ stdout r.2.
Proof.
  destruct (decided_by_name half_done "pop_config" pop_config_columns
              "address_vente" "TEXT" col_av_int) as (A & G & O & _).
  - left.
  - reflexivity.
  - rewrite run_evolve. split; [exact A|]. split.
    + rewrite G. reflexivity.
    + apply O; [reflexivity|]. vm_compute. reflexivity.
Defined.

(** ** Further properties of the script *)




Lemma expected_log_step h tbl targets p d n out op r :
  expected_log h tbl targets p → expected_call h tbl targets op →
  expected_log h tbl targets (Proc d n out (db_log p ++ [(op, r)])).
Proof.
  intros Hp Hop. unfold expected_log in *. cbn [db_log].
  apply Forall_app. split; [done|]. by constructor.
Qed.

Lemma expected_log_add_all h tbl targets l :
  (∀ cty, cty ∈ l → cty ∈ targets) →
  keeps (expected_log h tbl targets)
        (add_all h tbl (names (default [] (disk h !! tbl))) l).
Proof.
  intros Hsub. induction l as [|[c ty] rest IH]; cbn [add_all].
  - apply keeps_ret.
  - apply keeps_bind; [|intros _; apply IH; intros cty Hin; apply Hsub; by right].
    apply keeps_add_if_missing; [by intros s p Hp|]. cbn [fst snd]. intros Hout p Hp.
    unfold execute_add_column, logged.
    assert (expected_call h tbl targets (AddColumn tbl c ty)) as Hcall.
    { split; [done|]. split; [apply Hsub; left|done]. }
    destruct (alter_add_column _ _ _ _); [by apply expected_log_step|].
    destruct (refuses h _); by apply expected_log_step.
Qed.

Lemma evolve_body_expected_log h tbl targets :
  triple (λ p, db p = disk h ∧ db_log p = []) (evolve_body h tbl targets)
         (λ _, expected_log h tbl targets) (λ _, expected_log h tbl targets).
Proof.
  unfold evolve_body.
  eapply triple_bind with (Q := λ _ p, db p = disk h ∧ expected_log h tbl targets p).
  { intros p [Hd Hl]. unfold sqlite3_connect, logged, expected_log.
    destruct (refuses h _); cbn; rewrite Hl; cbn; repeat constructor; done. }
  intros ?.
  eapply triple_bind
    with (Q := λ rows p, row_1 <$> rows = names (default [] (disk h !! tbl)) ∧
                         expected_log h tbl targets p).
  { intros p [Hd Hl]. unfold pragma_table_info, logged.
    destruct (refuses h _); [by apply expected_log_step|].
    split; [by rewrite row_1_table_info, Hd|]. by apply expected_log_step. }
  intros rows.
  eapply triple_bind with (Q := λ _, expected_log h tbl targets).
  { intros p [Hr Hl]. rewrite Hr. by apply expected_log_add_all. }
  intros ?.
  eapply triple_bind with (Q := λ _, expected_log h tbl targets).
  { intros p Hp. unfold conn_commit, logged.
    destruct (refuses h _); by apply expected_log_step. }
  intros ?.
  eapply triple_bind with (Q := λ _, expected_log h tbl targets).
  { intros p Hp. unfold conn_close, logged.
    destruct (refuses h _); by apply expected_log_step. }
  intros ?. by apply triple_print.
Qed.

(** X2. The only statements a run ever issues that change the schema
    are [ADD COLUMN] statements on its own table, each for one of its
    targets, and only for targets whose name the table did not have when
    the run started; all its other database calls are its own
    [connect], the introspection of that table, [commit] and [close]. *)
Theorem only_expected_calls h tbl targets :
  Forall (λ ev, expected_call h tbl targets ev.1) (db_log (evolve_run h tbl targets).2) ∧
  (∀ T c ty res,
     (AddColumn T c ty, res) ∈ db_log (run h).2 →
     T = "pop_config" ∧ ty = "TEXT" ∧
     (c = "address_vente" ∨ c = "site_livraison") ∧
     c ∉ names (default [] (disk h !! "pop_config"))).
Proof.
  assert (∀ tbl targets, expected_log h tbl targets (evolve_run h tbl targets).2) as Hall.
  { clear tbl targets. intros tbl targets. unfold evolve_run, evolve.
    erewrite bind_ok; [|reflexivity]. destruct (negb _); [by constructor|].
    unfold try_except.
    pose proof (evolve_body_expected_log h tbl targets (boot h) (conj eq_refl eq_refl)) as H.
    by destruct (evolve_body h tbl targets (boot h)) as [[[]|e] p]. }
  split; [apply Hall|]. intros T c ty res Hin. rewrite run_evolve in Hin.
  specialize (Hall "pop_config" pop_config_columns). unfold expected_log in Hall.
  rewrite Forall_forall in Hall. destruct (Hall _ Hin) as (-> & Htar & Hout).
  split; [done|]. apply list_elem_of_In in Htar. cbn in Htar.
  destruct Htar as [[= -> ->]|[[= -> ->]|[]]]; auto.
Qed.

Lemma evolve_body_handles h tbl targets :
  triple (λ p, handles p = 0) (evolve_body h tbl targets)
         (λ _ p, handles p = 0) (λ _ p, handles p = left_open h).
Proof.
  set (open1 := λ p : proc, handles p = 1 ∧ refuses h (Connect db_path) = None).
  assert (∀ p, open1 p → handles p = left_open h) as Hleft.
  { intros p [Hh Hc]. unfold left_open. by rewrite Hc. }
  assert (∀ A (m : py A), keeps open1 m →
            triple open1 m (λ _, open1) (λ _ p, handles p = left_open h)) as Hkeep.
  { intros A m Hm. eapply triple_conseq; [exact Hm|done|done|]. intros ? p. apply Hleft. }
  unfold evolve_body.
  eapply triple_bind with (Q := λ _, open1).
  { intros p Hp. unfold sqlite3_connect, left_open, open1, logged.
    destruct (refuses h _); cbn; [done|]. rewrite Hp. split; reflexivity. }
  intros ?. eapply triple_bind with (Q := λ _, open1).
  { apply Hkeep. intros p Hp. unfold pragma_table_info, logged.
    by destruct (refuses h (TableInfo tbl)). }
  intros rows. eapply triple_bind with (Q := λ _, open1).
  { apply Hkeep. apply keeps_add_all. intros cty.
    apply keeps_add_if_missing; [by intros s p Hp|]. intros _ p Hp.
    unfold execute_add_column, logged. destruct (alter_add_column _ _ _ _); [done|].
    by destruct (refuses h (AddColumn _ _ _)). }
  intros ?. eapply triple_bind with (Q := λ _, open1).
  { apply Hkeep. intros p Hp. unfold conn_commit, logged. by destruct (refuses h Commit). }
  intros ?. eapply triple_bind with (Q := λ _ p, handles p = 0).
  { intros p Hp. unfold conn_close, logged. destruct (refuses h Close); cbn.
    - by apply (Hleft p).
    - by destruct Hp as [-> _]. }
  intros ?. by apply triple_print.
Qed.

(** X3. The connection is closed only by a run that meets no database
    error.  A run that a database error stops leaves open the
    connection it opened: [conn.close()] sits inside the [try] block and
    is skipped.  Only when [connect] itself failed is there nothing left
    open. *)
Theorem connection_left_open h tbl targets :
  let r := evolve_run h tbl targets in
  (db_errors r.2 = [] → handles r.2 = 0) ∧
  (db_errors r.2 ≠ [] → handles r.2 = left_open h) ∧
  (db_errors r.2 ≠ [] → refuses h (Connect db_path) = None → handles r.2 = 1) ∧
  run h = evolve_run h "pop_config" pop_config_columns.
Proof.
  intros r.
  assert ((db_errors r.2 = [] → handles r.2 = 0) ∧
          (db_errors r.2 ≠ [] → handles r.2 = left_open h)) as [H0 H1].
  { subst r. unfold evolve_run, evolve. erewrite bind_ok; [|reflexivity].
    destruct (negb _); [by split|]. unfold try_except.
    pose proof (triple_and _ _ _ _ _ _ _
                  (evolve_body_outcome h tbl targets)
                  (evolve_body_handles h tbl targets)
                  (boot h) (conj (conj eq_refl eq_refl) eq_refl)) as H.
    destruct (evolve_body h tbl targets (boot h)) as [[[]|e] p].
    - destruct H as [[(Herr & _) _] Hh]. cbn [snd]. by split.
    - destruct H as [[(op & Herr & _) _] Hh]. cbn [snd]. split; [|done].
      intros Hnil. unfold db_errors in *. cbn in Hnil. by rewrite Hnil in Herr. }
  split; [done|]. split; [done|]. split; [|apply run_evolve].
  intros Hne Hc. rewrite (H1 Hne). unfold left_open. by rewrite Hc.
Qed.

Lemma connection_left_open_witness :
  handles (run full_second).2 = 1 ∧ handles (run shop).2 = 0.
Proof.
  split.
  - destruct (connection_left_open full_second "pop_config" pop_config_columns)
      as (_ & _ & H & E).
    rewrite E. apply H; [vm_compute; discriminate | reflexivity].
  - destruct (connection_left_open shop "pop_config" pop_config_columns)
      as (H & _ & _ & E).
    rewrite E. apply H. reflexivity.
Defined.

(** X4. When [connect] or the introspection fails, the run stops there:
    no [ADD COLUMN] is tried, the catalog is as it was, and the only
    output is the failure line with the database's message. *)
Theorem early_failure h tbl targets e :
  db_path ∈ fs h →
  refuses h (Connect db_path) = Some e ∨
    (refuses h (Connect db_path) = None ∧ refuses h (TableInfo tbl) = Some e) →
  let r := evolve_run h tbl targets in
  r.1 = Ok tt ∧
  attempted r.2 = [] ∧
  db r.2 = disk h ∧
  stdout r.2 = ["Migration failed: " +:+ e].
Proof.
  intros Hfs Href r. subst r. unfold evolve_run, evolve.
  erewrite bind_ok; [|reflexivity]. rewrite bool_decide_eq_true_2 by done.
  cbn [negb]. unfold try_except, evolve_body.
  destruct Href as [Hc|[Hc Hi]].
  - erewrite bind_raise; cycle 1.
    { unfold sqlite3_connect. rewrite Hc. reflexivity. }
    by vm_compute.
  - erewrite bind_ok; cycle 1.
    { unfold sqlite3_connect. rewrite Hc. reflexivity. }
    erewrite bind_raise; cycle 1.
    { unfold pragma_table_info. rewrite Hi. reflexivity. }
    done.
Qed.

Lemma early_failure_witness :
  attempted (run locked).2 = [] ∧
  stdout (run locked).2 = ["Migration failed: database is locked"].
Proof.
  destruct (early_failure locked "pop_config" pop_config_columns "database is locked")
    as (_ & A & _ & O).
  - vm_compute. reflexivity.
  - right. split; reflexivity.
  - rewrite run_evolve. exact (conj A O).
Defined.

Lemma has_column_foldl_add_column t l c :
  has_column t c = true → has_column (foldl add_column t l) c = true.
Proof.
  unfold has_column. rewrite !bool_decide_eq_true, names_foldl_add_column, fmap_app.
  intros H. apply elem_of_app. by left.
Qed.

(** X5. The script compares column names exactly, SQLite without regard
    to case.  When the table has a column that SQLite takes for a target
    but that is spelled differently, the script finds the target
    missing, its [ADD COLUMN] is rejected as a duplicate, and the run
    stops there: the targets before it stay added, those after it are
    never tried. *)
Theorem spelling_clash h tbl pre c ty post t :
  db_path ∈ fs h →
  refuses h (Connect db_path) = None → refuses h (TableInfo tbl) = None →
  disk h !! tbl = Some t →
  exact_names t pre.*1 → distinct_names pre.*1 →
  (∀ cty, cty ∈ pre → refuses h (AddColumn tbl cty.1 cty.2) = None) →
  c ∉ names t → has_column t c = true →
  let r := evolve_run h tbl (pre ++ (c, ty) :: post) in
  r.1 = Ok tt ∧
  added r.2 = (missing (names t) pre).*1 ∧
  attempted r.2 = (missing (names t) pre).*1 ++ [c] ∧
  db r.2 = <[tbl := foldl add_column t (missing (names t) pre)]> (disk h) ∧
  stdout r.2 = (progress_line (names t) <$> pre) ++
                 ["Adding column " +:+ c +:+ "...";
                  "Migration failed: duplicate column name: " +:+ c].
Proof.
  intros Hfs Hc Hi Ht Hex Hnd Hpre Hout Hhas r.
  destruct (missing_conditions t _ Hex Hnd) as [Hm1 Hm2].
  assert (r = (Ok tt,
               Proc (<[tbl := foldl add_column t (missing (names t) pre)]> (disk h))
                    1
                    ((progress_line (names t) <$> pre) ++
                       ["Adding column " +:+ c +:+ "...";
                        "Migration failed: duplicate column name: " +:+ c])
                    ((Connect db_path, None) :: (TableInfo tbl, None) ::
                       (add_event tbl <$> missing (names t) pre) ++
                       [(AddColumn tbl c ty, Some ("duplicate column name: " +:+ c))])))
    as ->.
  { subst r. unfold evolve_run, evolve.
    erewrite bind_ok; [|reflexivity]. rewrite bool_decide_eq_true_2 by done.
    cbn [negb]. unfold try_except, evolve_body.
    erewrite bind_ok; cycle 1.
    { unfold sqlite3_connect. rewrite Hc. reflexivity. }
    erewrite bind_ok; cycle 1.
    { unfold pragma_table_info. rewrite Hi. reflexivity. }
    cbn [boot db handles stdout db_log logged]. rewrite Ht. cbn [default].
    rewrite row_1_table_info.
    erewrite bind_raise; cycle 1.
    { rewrite add_all_app. erewrite bind_ok; cycle 1.
      { apply (add_all_ok _ _ _ _ _ t); [done| |done].
        intros cty Hcty. split; [by apply Hm1|].
        apply Hpre. by apply list_elem_of_filter in Hcty as [_ ?]. }
      cbn [add_all]. apply bind_raise. unfold add_if_missing. cbn [fst snd].
      rewrite bool_decide_eq_true_2 by done.
      erewrite bind_ok; [|reflexivity]. unfold execute_add_column, alter_add_column.
      cbn [db handles stdout db_log]. rewrite lookup_insert_eq.
      rewrite has_column_foldl_add_column by done. reflexivity. }
    unfold print, logged. cbn [db handles stdout db_log app].
    by rewrite <-!app_assoc. }
  cbn [fst snd db stdout]. unfold added, attempted. cbn [db_log omap list_omap].
  rewrite !omap_app, added_add_events, attempted_add_events.
  cbn [omap list_omap app]. by rewrite ?app_nil_r.
Qed.

Lemma spelling_clash_witness :
  stdout (run clash).2 =
    ["Adding column address_vente...";
     "Migration failed: duplicate column name: address_vente"] ∧
  attempted (run clash).2 = ["address_vente"] ∧
  db (run clash).2 = disk clash.
Proof.
  destruct (spelling_clash clash "pop_config" [] "address_vente" "TEXT"
              [("site_livraison", "TEXT")] [col_id; col_av_caps])
    as (_ & _ & A & D & O).
  - vm_compute. reflexivity.
  - reflexivity.
  - reflexivity.
  - reflexivity.
  - intros c Hc. by apply elem_of_nil in Hc.
  - constructor.
  - intros cty Hcty. by apply elem_of_nil in Hcty.
  - intros Hin. apply list_elem_of_In in Hin. cbn in Hin. intuition discriminate.
  - reflexivity.
  - rewrite run_evolve. split; [exact O|]. split; [exact A|].
    change (pop_config_columns) with ([] ++ ("address_vente", "TEXT") ::
                                        [("site_livraison", "TEXT")]).
    rewrite D. reflexivity.
Defined.

(** X6. A failure line does not mean that nothing was changed.  An
    [ALTER TABLE] is stored when it returns, so when every column went
    in and [commit] or [close] then fails, the run prints the failure
    line, never the success line, and the table has all the missing
    columns all the same. *)
Theorem late_failure h tbl targets t e :
  db_path ∈ fs h →
  refuses h (Connect db_path) = None → refuses h (TableInfo tbl) = None →
  disk h !! tbl = Some t →
  exact_names t targets.*1 → distinct_names targets.*1 →
  (∀ cty, cty ∈ targets → refuses h (AddColumn tbl cty.1 cty.2) = None) →
  refuses h Commit = Some e ∨ (refuses h Commit = None ∧ refuses h Close = Some e) →
  let r := evolve_run h tbl targets in
  r.1 = Ok tt ∧
  added r.2 = (missing (names t) targets).*1 ∧
  db r.2 = <[tbl := foldl add_column t (missing (names t) targets)]> (disk h) ∧
  stdout r.2 = (progress_line (names t) <$> targets) ++ ["Migration failed: " +:+ e].
Proof.
  intros Hfs Hc Hi Ht Hex Hnd Hadd Hlate r.
  destruct (missing_conditions t _ Hex Hnd) as [Hm1 Hm2].
  assert (∃ tail,
            r = (Ok tt,
                 Proc (<[tbl := foldl add_column t (missing (names t) targets)]> (disk h))
                      1
                      ((progress_line (names t) <$> targets) ++
                         ["Migration failed: " +:+ e])
                      ((Connect db_path, None) :: (TableInfo tbl, None) ::
                         (add_event tbl <$> missing (names t) targets) ++ tail)) ∧
            (tail = [(Commit, Some e)] ∨ tail = [(Commit, None); (Close, Some e)]))
    as (tail & -> & Htail).
  { subst r. unfold evolve_run, evolve.
    erewrite bind_ok; [|reflexivity]. rewrite bool_decide_eq_true_2 by done.
    cbn [negb]. unfold try_except, evolve_body.
    erewrite bind_ok; cycle 1.
    { unfold sqlite3_connect. rewrite Hc. reflexivity. }
    erewrite bind_ok; cycle 1.
    { unfold pragma_table_info. rewrite Hi. reflexivity. }
    cbn [boot db handles stdout db_log logged]. rewrite Ht. cbn [default].
    rewrite row_1_table_info.
    erewrite bind_ok; cycle 1.
    { apply (add_all_ok _ _ _ _ _ t); [done| |done].
      intros cty Hcty. split; [by apply Hm1|].
      apply Hadd. by apply list_elem_of_filter in Hcty as [_ ?]. }
    cbn [db handles stdout db_log].
    destruct Hlate as [Hk|[Hk Hz]].
    - exists [(Commit, Some e)]. split; [|by left].
      erewrite bind_raise; cycle 1.
      { unfold conn_commit. rewrite Hk. reflexivity. }
      unfold print, logged. cbn [db handles stdout db_log app].
      by rewrite <-?app_assoc.
    - exists [(Commit, None); (Close, Some e)]. split; [|by right].
      erewrite bind_ok; cycle 1.
      { unfold conn_commit. rewrite Hk. reflexivity. }
      erewrite bind_raise; cycle 1.
      { unfold conn_close. rewrite Hz. reflexivity. }
      unfold print, logged. cbn [db handles stdout db_log app].
      by rewrite <-?app_assoc. }
  cbn [fst snd db stdout]. unfold added. cbn [db_log omap list_omap].
  rewrite omap_app, added_add_events.
  destruct Htail as [-> | ->]; cbn [omap list_omap]; by rewrite app_nil_r.
Qed.

Lemma late_failure_witness :
  stdout (run commit_fails).2 =
    ["Adding column address_vente..."; "Adding column site_livraison...";
     "Migration failed: disk I/O error"] ∧
  names <$> db (run commit_fails).2 !! "pop_config" =
    Some ["id"; "name"; "address_vente"; "site_livraison"].
Proof.
  destruct (late_failure commit_fails "pop_config" pop_config_columns
              [col_id; col_nm] "disk I/O error") as (_ & _ & D & O).
  - vm_compute. reflexivity.
  - reflexivity.
  - reflexivity.
  - reflexivity.
  - intros c Hc. vm_compute in Hc. vm_compute.
    apply list_elem_of_In in Hc. cbn in Hc.
    destruct Hc as [<-|[<-|[]]]; discriminate.
  - vm_compute. repeat constructor; rewrite list_elem_of_In; cbn; intuition discriminate.
  - intros cty Hcty. reflexivity.
  - left. reflexivity.
  - rewrite run_evolve. split; [exact O|]. rewrite D. reflexivity.
Defined.

Lemma NoDup_fmap_eq {A B} (f : A → B) (l : list A) x y :
  NoDup (f <$> l) → x ∈ l → y ∈ l → f x = f y → x = y.
Proof.
  induction l as [|a l IH]; intros Hnd Hx Hy Hf; [by apply elem_of_nil in Hx|].
  rewrite fmap_cons in Hnd. apply NoDup_cons in Hnd as [Ha Hnd].
  apply elem_of_cons in Hx as [->|Hx], Hy as [->|Hy].
  - done.
  - destruct Ha. rewrite Hf. by apply list_elem_of_fmap_2.
  - destruct Ha. rewrite <-Hf. by apply list_elem_of_fmap_2.
  - by apply IH.
Qed.

(** The table a stopped run leaves still spells the targets exactly. *)
Lemma exact_names_after t pre targets :
  exact_names t targets.*1 → distinct_names targets.*1 →
  (∀ cty, cty ∈ pre → cty ∈ targets) →
  exact_names (foldl add_column t (missing (names t) pre)) targets.*1.
Proof.
  intros Hex Hnd Hsub c Hc Hhas. rewrite names_foldl_add_column.
  unfold has_column in Hhas. apply bool_decide_eq_true in Hhas.
  rewrite names_foldl_add_column, fmap_app, elem_of_app in Hhas.
  apply elem_of_app. destruct Hhas as [Hhas|Hhas].
  - left. apply Hex; [done|]. unfold has_column. by apply bool_decide_eq_true.
  - right. apply list_elem_of_fmap in Hhas as (c' & Hf & Hc').
    assert (c' ∈ targets.*1) as Hc't.
    { apply list_elem_of_fmap in Hc' as (cty & -> & Hin).
      apply list_elem_of_fmap_2, Hsub. by apply list_elem_of_filter in Hin as [_ ?]. }
    by rewrite (NoDup_fmap_eq fold_name targets.*1 c c' Hnd Hc Hc't Hf).
Qed.

(** What is still missing after a run stopped at [(c, ty)]. *)
Lemma missing_after_stop t pre rest :
  NoDup (pre ++ rest).*1 →
  missing (names (foldl add_column t (missing (names t) pre))) (pre ++ rest)
  = missing (names t) rest.
Proof.
  intros Hnd. rewrite fmap_app in Hnd. apply NoDup_app in Hnd as (_ & Hdisj & _).
  unfold missing at 1 3. rewrite filter_app, names_foldl_add_column.
  rewrite (filter_none _ pre), app_nil_l.
  - apply filter_ext_in. intros cty Hin. rewrite elem_of_app. split; [tauto|].
    intros Hout [?|Hpre]; [done|].
    apply list_elem_of_fmap in Hpre as (cty' & Heq & Hin').
    apply list_elem_of_filter in Hin' as [_ Hin'].
    apply (Hdisj cty.1); [rewrite Heq|]; by apply list_elem_of_fmap_2.
  - intros cty Hin Hout. apply Hout, elem_of_app.
    destruct (decide (cty.1 ∈ names t)) as [|Hn]; [by left|right].
    apply list_elem_of_fmap_2. by apply list_elem_of_filter.
Qed.

(** X7. Running the script again after a failure finishes the job.
    When the database refused the column [c] and refuses nothing the
    second time, the second run adds [c] and the targets after it that
    the table lacked, and nothing else; together the two runs added what
    one run without failure adds, and the table ends with the same
    column names. *)
Theorem retry_completes h tbl pre c ty post e t :
  db_path ∈ fs h →
  refuses h (Connect db_path) = None → refuses h (TableInfo tbl) = None →
  disk h !! tbl = Some t →
  exact_names t (pre ++ (c, ty) :: post).*1 →
  distinct_names (pre ++ (c, ty) :: post).*1 →
  (∀ cty, cty ∈ pre → refuses h (AddColumn tbl cty.1 cty.2) = None) →
  c ∉ names t → refuses h (AddColumn tbl c ty) = Some e →
  let targets := pre ++ (c, ty) :: post in
  let r1 := evolve_run h tbl targets in
  let r2 := evolve_run (freed h r1.2) tbl targets in
  r2.1 = Ok tt ∧
  added r2.2 = (missing (names t) ((c, ty) :: post)).*1 ∧
  added r1.2 ++ added r2.2 = (missing (names t) targets).*1 ∧
  (∃ t2, db r2.2 !! tbl = Some t2 ∧
         names t2 = names t ++ (missing (names t) targets).*1) ∧
  last (stdout r2.2) = Some "Migration completed successfully.".
Proof.
  intros Hfs Hc Hi Ht Hex Hnd Hpre Hout Hr targets r1 r2.
  destruct (missing_conditions t targets Hex Hnd) as [Hm1 Hm2].
  assert (∀ cty, cty ∈ pre → cty ∈ targets) as Hsub.
  { intros cty Hin. apply elem_of_app. by left. }
  assert (has_column t c = false) as Hhas.
  { apply (Hm1 (c, ty)). apply list_elem_of_filter. split; [done|].
    apply elem_of_app. right. left. }
  set (t1 := foldl add_column t (missing (names t) pre)).
  assert (r1 = (Ok tt,
                Proc (<[tbl := t1]> (disk h)) 1
                     ((progress_line (names t) <$> pre) ++
                        ["Adding column " +:+ c +:+ "..."; "Migration failed: " +:+ e])
                     ((Connect db_path, None) :: (TableInfo tbl, None) ::
                        (add_event tbl <$> missing (names t) pre) ++
                        [(AddColumn tbl c ty, Some e)]))) as E1.
  { apply evolve_run_refused; try done.
    - intros cty Hcty. apply list_elem_of_filter in Hcty as [Hno Hin]. split.
      + apply (Hm1 cty). apply list_elem_of_filter. split; [done|]. by apply Hsub.
      + by apply Hpre.
    - eapply sublist_NoDup; [exact Hm2|]. do 2 apply fmap_sublist.
      subst targets. unfold missing.
      rewrite !filter_app, !filter_cons_True, filter_nil by done.
      apply sublist_app; [done|]. apply sublist_skip, sublist_nil_l. }
  assert (NoDup targets.*1) as Hnd'.
  { by apply (NoDup_fmap_1 fold_name). }
  assert (missing (names t1) targets = missing (names t) ((c, ty) :: post)) as Hrest.
  { by apply missing_after_stop. }
  assert (exact_names t1 targets.*1) as Hex1.
  { by apply exact_names_after. }
  destruct (missing_conditions t1 targets Hex1 Hnd) as [Hn1 Hn2].
  assert (r2 = (Ok tt,
                Proc (<[tbl := foldl add_column t1 (missing (names t1) targets)]>
                        (<[tbl := t1]> (disk h)))
                     0
                     ((progress_line (names t1) <$> targets) ++
                        ["Migration completed successfully."])
                     ((Connect db_path, None) :: (TableInfo tbl, None) ::
                        (add_event tbl <$> missing (names t1) targets) ++
                        [(Commit, None); (Close, None)]))) as E2.
  { subst r2. rewrite E1. apply evolve_run_ok; try done. apply lookup_insert_eq. }
  rewrite E2, E1. cbn [fst snd db stdout].
  rewrite added_of_good_log, Hrest.
  unfold added at 1. cbn [db_log omap list_omap].
  rewrite omap_app, added_add_events. cbn [omap list_omap]. rewrite app_nil_r.
  split; [done|]. split; [done|]. split; [|split].
  - subst targets. unfold missing. by rewrite filter_app, fmap_app.
  - eexists. rewrite lookup_insert_eq. split; [done|].
    rewrite names_foldl_add_column. subst t1. rewrite names_foldl_add_column.
    subst targets. unfold missing. by rewrite filter_app, fmap_app, <-app_assoc.
  - apply last_snoc.
Qed.

Lemma retry_completes_witness :
  let r1 := run full_second in
  let r2 := run (freed full_second r1.2) in
  added r1.2 = ["address_vente"] ∧
  added r2.2 = ["site_livraison"] ∧
  names <$> db r2.2 !! "pop_config" =
    Some ["id"; "name"; "address_vente"; "site_livraison"].
Proof.
  destruct (retry_completes full_second "pop_config" [("address_vente", "TEXT")]
              "site_livraison" "TEXT" [] "database or disk is full" [col_id; col_nm])
    as (_ & A2 & _ & (t2 & Ht2 & Hn2) & _).
  - vm_compute. reflexivity.
  - reflexivity.
  - reflexivity.
  - reflexivity.
  - intros c Hc. vm_compute in Hc. vm_compute.
    apply list_elem_of_In in Hc. cbn in Hc.
    destruct Hc as [<-|[<-|[]]]; discriminate.
  - vm_compute. repeat constructor; rewrite list_elem_of_In; cbn; intuition discriminate.
  - intros cty Hcty. apply list_elem_of_In in Hcty. cbn in Hcty.
    destruct Hcty as [<-|[]]. reflexivity.
  - intros Hin. apply list_elem_of_In in Hin. cbn in Hin. intuition discriminate.
  - reflexivity.
  - rewrite !run_evolve. split; [reflexivity|]. split; [exact A2|].
    etrans; [exact (f_equal (fmap names) Ht2)|]. cbn. by rewrite Hn2.
Defined.

(** X8. A run on a table that already has every target writes nothing:
    it makes four database calls -- [connect], the introspection,
    [commit], [close] -- prints one already-exists line per target and
    the success line, and leaves the catalog as it was.  It does not
    depend on what the database would answer to an [ADD COLUMN]. *)
Theorem nothing_to_write h tbl targets t :
  db_path ∈ fs h →
  refuses h (Connect db_path) = None → refuses h (TableInfo tbl) = None →
  refuses h Commit = None → refuses h Close = None →
  disk h !! tbl = Some t →
  (∀ cty, cty ∈ targets → cty.1 ∈ names t) →
  evolve_run h tbl targets =
    (Ok tt,
     Proc (disk h) 0
          (((λ cty, "Column " +:+ cty.1 +:+ " already exists.") <$> targets) ++
             ["Migration completed successfully."])
          [(Connect db_path, None); (TableInfo tbl, None);
           (Commit, None); (Close, None)]).
Proof.
  intros Hfs Hc Hi Hk Hz Ht Hall.
  assert (missing (names t) targets = []) as Hm.
  { apply filter_none. intros cty Hin Hout. by apply Hout, Hall. }
  unfold evolve_run, evolve.
  erewrite bind_ok; [|reflexivity]. rewrite bool_decide_eq_true_2 by done.
  cbn [negb]. unfold try_except, evolve_body.
  erewrite bind_ok; cycle 1.
  { unfold sqlite3_connect. rewrite Hc. reflexivity. }
  erewrite bind_ok; cycle 1.
  { unfold pragma_table_info. rewrite Hi. reflexivity. }
  cbn [boot db handles stdout db_log logged]. rewrite Ht.
  change (default [] (Some t)) with t. rewrite row_1_table_info.
  erewrite bind_ok; cycle 1.
  { apply (add_all_ok _ _ _ _ _ t); rewrite ?Hm; [done| |constructor].
    intros cty Hcty. by apply elem_of_nil in Hcty. }
  rewrite Hm. cbn [db handles stdout db_log foldl fmap list_fmap].
  erewrite bind_ok; cycle 1.
  { unfold conn_commit. rewrite Hk. reflexivity. }
  erewrite bind_ok; cycle 1.
  { unfold conn_close. rewrite Hz. reflexivity. }
  unfold print, logged. cbn [db handles stdout db_log pred app].
  rewrite insert_id by done. do 3 f_equal.
  apply list_fmap_ext. intros i cty Hi'. apply progress_line_present, Hall.
  by eapply list_elem_of_lookup_2.
Qed.

Lemma nothing_to_write_witness :
  run migrated_full =
    (Ok tt,
     Proc (disk migrated_full) 0
          ["Column address_vente already exists.";
           "Column site_livraison already exists.";
           "Migration completed successfully."]
          [(Connect db_path, None); (TableInfo "pop_config", None);
           (Commit, None); (Close, None)]).
Proof.
  rewrite run_evolve.
  apply (nothing_to_write migrated_full "pop_config" pop_config_columns
           (default [] (disk migrated_full !! "pop_config"))).
  - vm_compute. reflexivity.
  - reflexivity.
  - reflexivity.
  - reflexivity.
  - reflexivity.
  - reflexivity.
  - intros cty Hcty. apply list_elem_of_In in Hcty. cbn in Hcty.
    apply list_elem_of_In. destruct Hcty as [<-|[<-|[]]]; vm_compute; auto.
Defined.
